(** * pngfix764: the sRGB composition formula of libpng's simplified API

    A shallow embedding of [contrib/libtests/pngfix764.c]: the function
    [srgb_compose], the table [tests] of literal vectors and the loop
    [run_tests] that counts the vectors [srgb_compose] gets wrong.

    The C function computes on [unsigned int].  The language only promises
    that this type has at least 16 value bits, so its width is a parameter
    [bits] of the embedding: a value is a [Z] in [0, 2^bits), and every
    arithmetic operator reduces its exact result modulo [2^bits]. *)

From Stdlib Require Import ZArith NArith List String Bool Lia.
From Stdlib Require Import Ascii DecimalString.
Import ListNotations.

Local Open Scope Z_scope.

(** ** Unsigned machine arithmetic *)

Module UInt.

Section Width.

Variable bits : Z.

Definition modulus : Z := 2 ^ bits.

Definition max_value : Z := modulus - 1.

(** Reduction of an exact result to the representable range. *)
Definition wrap (z : Z) : Z := z mod modulus.

Definition add (x y : Z) : Z := wrap (x + y).

Definition sub (x y : Z) : Z := wrap (x - y).

Definition mul (x y : Z) : Z := wrap (x * y).

(** Unsigned division never leaves the range of its dividend; it is written
    with [wrap] all the same, like the other operators. *)
Definition div (x y : Z) : Z := wrap (x / y).

Definition in_range (z : Z) : Prop := 0 <= z <= max_value.

End Width.

End UInt.

(** ** Samples *)

(** An 8-bit channel value. *)
Definition is_sample (x : Z) : Prop := 0 <= x <= 255.

(** ** The compositor *)

Section Compositor.

Variable bits : Z.

Local Notation "x +u y" := (UInt.add bits x y) (at level 50, left associativity).
Local Notation "x -u y" := (UInt.sub bits x y) (at level 50, left associativity).
Local Notation "x *u y" := (UInt.mul bits x y) (at level 40, left associativity).
Local Notation "x /u y" := (UInt.div bits x y) (at level 40, left associativity).

(** The right-hand side of the assignment in the blend branch, before the
    clamp: [foreground + ((255 - alpha) * background + 127) / 255]. *)
Definition srgb_blend (foreground alpha background : Z) : Z :=
  foreground +u ((255 -u alpha) *u background +u 127) /u 255.

Definition srgb_compose (foreground alpha background : Z) : Z :=
  if alpha =? 0 then
    (* Fully transparent: output is background (no change) *)
    background
  else if alpha =? 255 then
    (* Fully opaque: output is foreground *)
    foreground
  else
    (* Partial transparency: blend *)
    let result := srgb_blend foreground alpha background in
    if result >? 255 then 255 else result.

(** The value of every sub-expression of the blend, innermost first, as the
    machine computes it: [255 - alpha], the product, the rounded numerator,
    the quotient and the sum. *)
Definition srgb_blend_trace (foreground alpha background : Z) : list Z :=
  let t1 := 255 -u alpha in
  let t2 := t1 *u background in
  let t3 := t2 +u 127 in
  let t4 := t3 /u 255 in
  let t5 := foreground +u t4 in
  [t1; t2; t3; t4; t5].

End Compositor.

(** ** The blend over the unbounded naturals

    The expression of the blend branch read as the specification writes it,
    on natural numbers of any size, and the exact value of each of its
    sub-expressions.  These two definitions do not come from the C code; the
    machine computation is compared with them. *)

Definition blend_unbounded (foreground alpha background : N) : N :=
  (foreground + ((255 - alpha) * background + 127) / 255)%N.

Definition blend_unbounded_steps (foreground alpha background : N) : list N :=
  [ 255 - alpha;
    (255 - alpha) * background;
    (255 - alpha) * background + 127;
    ((255 - alpha) * background + 127) / 255;
    foreground + ((255 - alpha) * background + 127) / 255 ]%N.

(** ** The literal test vectors *)

Record test_vector : Type := mk_test_vector {
  fg : Z;            (* foreground component (from palette after gamma) *)
  alpha : Z;         (* alpha value (from tRNS) *)
  bg : Z;            (* background component (from buffer) *)
  expected : Z;      (* expected result *)
  desc : string      (* description *)
}.

Local Notation "{{ f , a , b , e , d }}" :=
  (mk_test_vector f a b e d%string) (at level 0, only parsing).

Definition tests : list test_vector := [
  (* Boundary cases: fully transparent (alpha=0) => result = background *)
  {{ 0, 0, 255, 255, "transparent black on white: background only" }};
  {{ 255, 0, 0, 0, "transparent white on black: background only" }};
  {{ 100, 0, 200, 200, "transparent on gray: background only" }};
  {{ 123, 0, 45, 45, "transparent: foreground ignored" }};

  (* Boundary cases: fully opaque (alpha=255) => result = foreground *)
  {{ 255, 255, 0, 255, "opaque white on black: foreground only" }};
  {{ 0, 255, 255, 0, "opaque black on white: foreground only" }};
  {{ 100, 255, 200, 100, "opaque on gray: foreground only" }};

  (* Mid-alpha cases *)
  {{ 128, 128, 128, 192, "50% gray on gray: 128 + (127*128+127)/255 = 192" }};
  {{ 0, 128, 255, 127, "50% black on white: 0 + (127*255+127)/255 = 127" }};
  {{ 255, 128, 0, 255, "50% white on black: 255 + 0 = 255" }};
  {{ 100, 128, 200, 200, "50% blend: 100 + (127*200+127)/255 = 200" }};

  (* Values from the PoC file that violated the premultiplied alpha
     invariant (foreground > alpha). *)
  {{ 134, 118, 73, 173, "PoC case 1: fg > alpha" }};
  {{ 194, 140, 73, 227, "PoC case 2: fg > alpha" }};
  {{ 249, 242, 73, 253, "PoC case 3: fg > alpha" }};

  (* Edge cases that could overflow before clamping *)
  {{ 255, 1, 255, 255, "near-transparent white on white: clamp" }};
  {{ 200, 50, 200, if 361 >? 255 then 255 else 361,
     "overflow case: clamp to 255" }};
  {{ 250, 10, 250, 255, "high values low alpha: clamp" }};

  (* Verify rounding behavior *)
  {{ 0, 254, 255, 1, "nearly opaque: (1*255+127)/255 = 1" }};
  {{ 0, 253, 255, 2, "nearly opaque: (2*255+127)/255 = 2" }};
  {{ 0, 1, 1, 1, "nearly transparent low bg: (254*1+127)/255 = 1" }};

  (* Default buffer init value (BUFFER_INIT8 = 73) cases *)
  {{ 0, 128, 73, 36, "transparent on default buffer" }};
  {{ 128, 64, 73, 183, "partial on default buffer" }};

  (* Maximum stress: values that maximize the computation *)
  {{ 254, 1, 254, 255, "max non-overflow: 254 + 253 = 507 -> 255" }};
  {{ 1, 254, 1, 1, "min result with alpha: 1 + 0 = 1" }}
].

(** The value the buffers are initialised with, [BUFFER_INIT8]. *)
Definition BUFFER_INIT8 : Z := 73.

(** The vectors of the table composed over the default buffer value. *)
Definition on_default_buffer (t : test_vector) : bool := bg t =? BUFFER_INIT8.

Definition is_transparent (t : test_vector) : bool := alpha t =? 0.

Definition is_partial (t : test_vector) : bool :=
  (0 <? alpha t) && (alpha t <? 255).

(** ** The verifier's first batch *)

Section Verifier.

Variable bits : Z.

(** One turn of the loop of [run_tests]: the failure counter after the
    vector [t].  The counter is an [int] that the 24 vectors cannot
    overflow; the lines printed are left out. *)
Definition run_test (failures : Z) (t : test_vector) : Z :=
  let result := srgb_compose bits (fg t) (alpha t) (bg t) in
  if negb (result =? expected t) then failures + 1 else failures.

Definition run_tests : Z := fold_left run_test tests 0.

End Verifier.

(** ** The whole program, with what it prints

    [run_tests], [verify_formula_properties] and [main] as the C file has
    them, in a small monad of outcomes.  The function under test is a
    parameter [srgb_compose] of the three, so that what they report can be
    stated of any compositor; the program is their instance at the
    compositor above.

    A run ends with a value after printing some lines, or it is cut short:
    the loops take a bound [fuel] on the number of times each evaluates its
    condition, and an addition on [int] that leaves the range of the type,
    which C leaves undefined, stops the run. *)

Module Harness.

Inductive outcome (A : Type) : Type :=
| Done (a : A) (out : list string)
| OutOfFuel
| Overflow.

Arguments Done {A} a out.
Arguments OutOfFuel {A}.
Arguments Overflow {A}.

Definition ret {A : Type} (a : A) : outcome A := Done a [].

Definition bind {A B : Type} (m : outcome A) (k : A -> outcome B) : outcome B :=
  match m with
  | Done a out1 =>
      match k a with
      | Done b out2 => Done b (out1 ++ out2)
      | OutOfFuel => OutOfFuel
      | Overflow => Overflow
      end
  | OutOfFuel => OutOfFuel
  | Overflow => Overflow
  end.

Notation "x <- m ;; k" := (bind m (fun x => k))
  (at level 61, m at next level, right associativity).
Notation "' p <- m ;; k" := (bind m (fun x => match x with p => k end))
  (at level 61, p pattern, m at next level, right associativity).
Notation "m ;; k" := (bind m (fun _ => k))
  (at level 61, right associativity).

(** *** printf *)

(** The arguments of a call: [%u] and [%zu] take an unsigned number, [%d] a
    signed one, [%s] a string. *)
Inductive arg : Type :=
| ArgU (z : Z)
| ArgD (z : Z)
| ArgS (s : string).

Definition newline : string := String (ascii_of_nat 10) EmptyString.

Definition decimal_u (z : Z) : string :=
  NilZero.string_of_uint (N.to_uint (Z.to_N z)).

Definition decimal_d (z : Z) : string :=
  NilZero.string_of_int (Z.to_int z).

(** The text a format produces.  The format is written as in the C source,
    so the two characters backslash and n stand for a line feed. *)
Fixpoint format (fmt : string) (args : list arg) : string :=
  match fmt with
  | EmptyString => EmptyString
  | String "\" (String "n" rest) => (newline ++ format rest args)%string
  | String "%" (String "z" (String "u" rest))
  | String "%" (String "u" rest) =>
      match args with
      | ArgU z :: args' => (decimal_u z ++ format rest args')%string
      | _ => format rest args
      end
  | String "%" (String "d" rest) =>
      match args with
      | ArgD z :: args' => (decimal_d z ++ format rest args')%string
      | _ => format rest args
      end
  | String "%" (String "s" rest) =>
      match args with
      | ArgS s :: args' => (s ++ format rest args')%string
      | _ => format rest args
      end
  | String c rest => String c (format rest args)
  end.

(** One call of [printf] appends one piece of text to the output. *)
Definition printf (fmt : string) (args : list arg) : outcome unit :=
  Done tt [format fmt args].

(** *** Loops *)

Section Loop.

Context {S : Type}.

Variable cond : Z -> bool.
Variable next : Z -> Z.
Variable body : Z -> S -> outcome S.

(** [for (i = ...; cond; next) body], from the index [i] and the values [s]
    of the variables the body assigns. *)
Fixpoint for_loop (fuel : nat) (i : Z) (s : S) : outcome S :=
  match fuel with
  | O => OutOfFuel
  | Datatypes.S fuel' =>
      if cond i then s' <- body i s ;; for_loop fuel' (next i) s'
      else ret s
  end.

End Loop.

Section Program.

Variable bits : Z.

Variable srgb_compose : Z -> Z -> Z -> Z.

Variable fuel : nat.

(** The range of [int], taken as the two's complement type of the width of
    [unsigned int]. *)
Definition INT_MAX : Z := 2 ^ (bits - 1) - 1.

Definition INT_MIN : Z := - 2 ^ (bits - 1).

Definition int_add (x y : Z) : outcome Z :=
  if (INT_MIN <=? x + y) && (x + y <=? INT_MAX) then ret (x + y) else Overflow.

(** The loop of [run_tests] from the vector of index [i] on; [ts] is the rest
    of the table.  The index is a [size_t] that the table cannot overflow. *)
Fixpoint run_tests_from (i : Z) (ts : list test_vector) (failures : Z)
  : outcome Z :=
  match ts with
  | [] => ret failures
  | t :: ts' =>
      let result := srgb_compose (fg t) (alpha t) (bg t) in
      failures <-
        (if negb (result =? expected t) then
           printf "FAIL [%zu]: %s\n" [ArgU (i + 1); ArgS (desc t)] ;;
           printf "  srgb_compose(%u, %u, %u) = %u, expected %u\n"
                  [ArgU (fg t); ArgU (alpha t); ArgU (bg t); ArgU result;
                   ArgU (expected t)] ;;
           int_add failures 1
         else
           printf "PASS [%zu]: %s\n" [ArgU (i + 1); ArgS (desc t)] ;;
           ret failures) ;;
      run_tests_from (i + 1) ts' failures
  end.

Definition run_tests : outcome Z :=
  let failures := 0 in
  let num_tests := Z.of_nat (List.length tests) in
  printf "Running %zu sRGB composition tests...\n\n" [ArgU num_tests] ;;
  failures <- run_tests_from 0 tests failures ;;
  printf "\n" [] ;;
  (if failures =? 0 then
     printf "All %zu tests passed.\n" [ArgU num_tests]
   else
     printf "%d of %zu tests FAILED.\n" [ArgD failures; ArgU num_tests]) ;;
  ret failures.

(** Property 1: alpha=0 => result = background *)
Definition property_1 (failures : Z) : outcome Z :=
  printf "Property 1: alpha=0 => result = background\n" [] ;;
  failures <-
    for_loop (fun bg => bg <=? 255) (fun bg => UInt.add bits bg 51)
      (fun bg failures =>
         for_loop (fun fg => fg <=? 255) (fun fg => UInt.add bits fg 51)
           (fun fg failures =>
              let result := srgb_compose fg 0 bg in
              if negb (result =? bg) then
                printf "  FAIL: srgb_compose(%u, 0, %u) = %u, expected %u\n"
                       [ArgU fg; ArgU bg; ArgU result; ArgU bg] ;;
                int_add failures 1
              else ret failures)
           fuel 0 failures)
      fuel 0 failures ;;
  (if failures =? 0 then printf "  PASS\n" [] else ret tt) ;;
  ret failures.

(** Property 2: alpha=255 => result = foreground (or clamped) *)
Definition property_2 (failures : Z) : outcome Z :=
  printf "Property 2: alpha=255 => result = foreground\n" [] ;;
  failures <-
    for_loop (fun fg => fg <=? 255) (fun fg => UInt.add bits fg 51)
      (fun fg failures =>
         for_loop (fun bg => bg <=? 255) (fun bg => UInt.add bits bg 51)
           (fun bg failures =>
              let result := srgb_compose fg 255 bg in
              if negb (result =? fg) then
                printf "  FAIL: srgb_compose(%u, 255, %u) = %u, expected %u\n"
                       [ArgU fg; ArgU bg; ArgU result; ArgU fg] ;;
                int_add failures 1
              else ret failures)
           fuel 0 failures)
      fuel 0 failures ;;
  (if failures =? 0 then printf "  PASS\n" [] else ret tt) ;;
  ret failures.

(** Property 3: result is always in [0, 255] *)
Definition property_3 (failures : Z) : outcome Z :=
  printf "Property 3: result always in [0, 255]\n" [] ;;
  let prop3_fail := 0 in
  '(prop3_fail, failures) <-
    for_loop (fun fg => fg <=? 255) (fun fg => UInt.add bits fg 1)
      (fun fg s =>
         for_loop (fun alpha => alpha <=? 255)
           (fun alpha => UInt.add bits alpha 1)
           (fun alpha s =>
              (* sample to keep runtime reasonable *)
              for_loop (fun bg => bg <=? 255) (fun bg => UInt.add bits bg 17)
                (fun bg '(prop3_fail, failures) =>
                   let result := srgb_compose fg alpha bg in
                   if result >? 255 then
                     printf "  FAIL: srgb_compose(%u, %u, %u) = %u > 255\n"
                            [ArgU fg; ArgU alpha; ArgU bg; ArgU result] ;;
                     prop3_fail <- int_add prop3_fail 1 ;;
                     failures <- int_add failures 1 ;;
                     ret (prop3_fail, failures)
                   else ret (prop3_fail, failures))
                fuel 0 s)
           fuel 0 s)
      fuel 0 (prop3_fail, failures) ;;
  (if prop3_fail =? 0 then printf "  PASS\n" [] else ret tt) ;;
  ret failures.

(** Property 4: monotonicity in background (higher bg => higher or equal
    result) *)
Definition property_4 (failures : Z) : outcome Z :=
  printf "Property 4: monotonic in background\n" [] ;;
  let prop4_fail := 0 in
  '(prop4_fail, failures) <-
    for_loop (fun fg => fg <=? 255) (fun fg => UInt.add bits fg 51)
      (fun fg s =>
         (* exclude 0 and 255 *)
         for_loop (fun alpha => alpha <? 255)
           (fun alpha => UInt.add bits alpha 51)
           (fun alpha '(prop4_fail, failures) =>
              let prev_result := srgb_compose fg alpha 0 in
              '(_, prop4_fail, failures) <-
                for_loop (fun bg => bg <=? 255) (fun bg => UInt.add bits bg 1)
                  (fun bg '(prev_result, prop4_fail, failures) =>
                     let result := srgb_compose fg alpha bg in
                     '(prop4_fail, failures) <-
                       (if result <? prev_result then
                          printf
                            "  FAIL: non-monotonic at fg=%u, alpha=%u, bg=%u\n"
                            [ArgU fg; ArgU alpha; ArgU bg] ;;
                          prop4_fail <- int_add prop4_fail 1 ;;
                          failures <- int_add failures 1 ;;
                          ret (prop4_fail, failures)
                        else ret (prop4_fail, failures)) ;;
                     let prev_result := result in
                     ret (prev_result, prop4_fail, failures))
                  fuel 1 (prev_result, prop4_fail, failures) ;;
              ret (prop4_fail, failures))
           fuel 1 s)
      fuel 0 (prop4_fail, failures) ;;
  (if prop4_fail =? 0 then printf "  PASS\n" [] else ret tt) ;;
  ret failures.

(** Verify the formula matches what's in pngread.c *)
Definition verify_formula_properties : outcome Z :=
  let failures := 0 in
  printf "Verifying formula properties...\n\n" [] ;;
  failures <- property_1 failures ;;
  failures <- property_2 failures ;;
  failures <- property_3 failures ;;
  failures <- property_4 failures ;;
  printf "\n" [] ;;
  (if failures =? 0 then
     printf "All formula properties verified.\n" []
   else
     printf "%d property violations found.\n" [ArgD failures]) ;;
  ret failures.

(** The value of [main] is the exit status of the process. *)
Definition main : outcome Z :=
  let failures := 0 in
  printf "pngfix764: Unit test for GitHub #764 sRGB composition fix\n" [] ;;
  printf "============================================================\n\n" [] ;;
  n <- run_tests ;;
  failures <- int_add failures n ;;
  printf "\n" [] ;;
  n <- verify_formula_properties ;;
  failures <- int_add failures n ;;
  printf "\n============================================================\n" [] ;;
  if failures =? 0 then
    printf "SUCCESS: All tests passed.\n" [] ;;
    ret 0
  else
    printf "FAILURE: %d test(s) failed.\n" [ArgD failures] ;;
    ret 1.

End Program.

End Harness.

(** The program: the harness at the compositor of the file. *)

Definition verify_formula_properties (bits : Z) (fuel : nat)
  : Harness.outcome Z :=
  Harness.verify_formula_properties bits (srgb_compose bits) fuel.

Definition main (bits : Z) (fuel : nat) : Harness.outcome Z :=
  Harness.main bits (srgb_compose bits) fuel.

(** ** What a run without failure prints *)

(** The lines of the first batch for the vectors [ts], the first of which
    has the index [i] in the table. *)
Fixpoint pass_lines (i : Z) (ts : list test_vector) : list string :=
  match ts with
  | [] => []
  | t :: ts' =>
      Harness.format "PASS [%zu]: %s\n"
                     [Harness.ArgU (i + 1); Harness.ArgS (desc t)]
      :: pass_lines (i + 1) ts'
  end.

Definition run_tests_transcript : list string :=
  [Harness.format "Running %zu sRGB composition tests...\n\n"
                  [Harness.ArgU 24]]
  ++ pass_lines 0 tests
  ++ [Harness.format "\n" [];
      Harness.format "All %zu tests passed.\n" [Harness.ArgU 24]].

Definition verify_transcript : list string :=
  map (fun line => Harness.format line [])
      ["Verifying formula properties...\n\n";
       "Property 1: alpha=0 => result = background\n"; "  PASS\n";
       "Property 2: alpha=255 => result = foreground\n"; "  PASS\n";
       "Property 3: result always in [0, 255]\n"; "  PASS\n";
       "Property 4: monotonic in background\n"; "  PASS\n";
       "\n";
       "All formula properties verified.\n"]%string.

Definition main_transcript : list string :=
  map (fun line => Harness.format line [])
      ["pngfix764: Unit test for GitHub #764 sRGB composition fix\n";
       "============================================================\n\n"]%string
  ++ run_tests_transcript
  ++ [Harness.format "\n" []]
  ++ verify_transcript
  ++ map (fun line => Harness.format line [])
      ["\n============================================================\n";
       "SUCCESS: All tests passed.\n"]%string.

(** ** What the sweeps of the second batch look at

    The values the loops of [verify_formula_properties] visit, and the four
    properties restricted to them. *)

Definition grid51 : list Z := [0; 51; 102; 153; 204; 255].

Definition grid17 : list Z :=
  [0; 17; 34; 51; 68; 85; 102; 119; 136; 153; 170; 187; 204; 221; 238; 255].

Definition alpha_grid : list Z := [1; 52; 103; 154; 205].

(** [n] values from [start], [step] apart. *)
Fixpoint stride_values (step : Z) (n : nat) (start : Z) : list Z :=
  match n with
  | O => []
  | S n' => start :: stride_values step n' (start + step)
  end.

(** The indices a loop goes through from [i]: the condition holds at each of
    [vs], which follow one another by [next], and fails after the last. *)
Fixpoint visits (cond : Z -> bool) (next : Z -> Z) (i : Z) (vs : list Z)
  : Prop :=
  match vs with
  | [] => cond i = false
  | v :: vs' => v = i /\ cond i = true /\ visits cond next (next i) vs'
  end.

Section Swept.

Variable compose : Z -> Z -> Z -> Z.

Definition vector_fails (t : test_vector) : bool :=
  negb (compose (fg t) (alpha t) (bg t) =? expected t).

Definition vectors_pass : Prop :=
  Forall (fun t => compose (fg t) (alpha t) (bg t) = expected t) tests.

Definition transparency_on_grid : Prop :=
  forall fg bg, In fg grid51 -> In bg grid51 -> compose fg 0 bg = bg.

Definition opacity_on_grid : Prop :=
  forall fg bg, In fg grid51 -> In bg grid51 -> compose fg 255 bg = fg.

Definition range_on_grid : Prop :=
  forall fg alpha bg,
    is_sample fg -> is_sample alpha -> In bg grid17 ->
    compose fg alpha bg <= 255.

Definition monotone_on_grid : Prop :=
  forall fg alpha bg,
    In fg grid51 -> In alpha alpha_grid -> 1 <= bg <= 255 ->
    compose fg alpha (bg - 1) <= compose fg alpha bg.

(** The four properties on the values the sweeps visit. *)
Definition holds_on_grids : Prop :=
  transparency_on_grid /\ opacity_on_grid /\ range_on_grid /\
  monotone_on_grid.

(** What the innermost loop of property 4 keeps: with [vs] left to visit,
    [prev_result] is the result at the background before the first of
    them. *)
Definition tracks_previous (fg alpha : Z) (vs : list Z) (prev_result : Z)
  : Prop :=
  exists k : nat,
    vs = stride_values 1 k (256 - Z.of_nat k) /\
    prev_result = compose fg alpha (255 - Z.of_nat k).

End Swept.

(** * Properties *)

(** ** Arithmetic that stays below [2^16] is exact *)

Section Exactness.

Variable bits : Z.

Hypothesis bits_ge_16 : 16 <= bits.

Lemma modulus_ge_65536 : 65536 <= UInt.modulus bits.
Proof.
  unfold UInt.modulus.
  change 65536 with (2 ^ 16).
  apply Z.pow_le_mono_r; lia.
Qed.

Lemma wrap_small (z : Z) : 0 <= z < 65536 -> UInt.wrap bits z = z.
Proof.
  intros Hz. unfold UInt.wrap.
  apply Z.mod_small.
  pose proof modulus_ge_65536. lia.
Qed.

Lemma max_value_ge_65535 : 65535 <= UInt.max_value bits.
Proof.
  unfold UInt.max_value. pose proof modulus_ge_65536. lia.
Qed.

End Exactness.

(** ** The rounded share of the background *)

(** [((255 - a) * b + 127) / 255] on exact integers: it is never negative,
    it is at most 254, and it grows with [b]. *)

Lemma numerator_bounds (a b : Z) :
  1 <= a <= 254 -> is_sample b -> 127 <= (255 - a) * b + 127 <= 64897.
Proof.
  unfold is_sample. intros Ha Hb. nia.
Qed.

Lemma share_bounds (a b : Z) :
  1 <= a <= 254 -> is_sample b -> 0 <= ((255 - a) * b + 127) / 255 <= 254.
Proof.
  intros Ha Hb.
  pose proof (numerator_bounds a b Ha Hb) as Hn.
  split.
  - apply Z.div_pos; lia.
  - apply Z.lt_succ_r, Z.div_lt_upper_bound; lia.
Qed.

Lemma share_monotone (a b1 b2 : Z) :
  1 <= a <= 254 -> b1 <= b2 ->
  ((255 - a) * b1 + 127) / 255 <= ((255 - a) * b2 + 127) / 255.
Proof.
  intros Ha Hb.
  apply Z.div_le_mono; [lia | nia].
Qed.

(** ** The compositor on 8-bit samples *)

Section Compose_properties.

Variable bits : Z.

Hypothesis bits_ge_16 : 16 <= bits.

(** On samples, with a partial alpha, no operator of the blend wraps. *)
Lemma srgb_blend_exact (f a b : Z) :
  is_sample f -> 1 <= a <= 254 -> is_sample b ->
  srgb_blend bits f a b = f + ((255 - a) * b + 127) / 255.
Proof.
  intros Hf Ha Hb.
  pose proof (numerator_bounds a b Ha Hb) as Hn.
  pose proof (share_bounds a b Ha Hb) as Hs.
  unfold is_sample in *.
  unfold srgb_blend, UInt.add, UInt.sub, UInt.mul, UInt.div.
  rewrite (wrap_small bits bits_ge_16 (255 - a)) by lia.
  rewrite (wrap_small bits bits_ge_16 ((255 - a) * b)) by lia.
  rewrite (wrap_small bits bits_ge_16 ((255 - a) * b + 127)) by lia.
  rewrite (wrap_small bits bits_ge_16 (((255 - a) * b + 127) / 255)) by lia.
  apply wrap_small; [assumption | lia].
Qed.

(** The third branch is the one taken for a partial alpha. *)
Lemma srgb_compose_partial (f a b : Z) :
  1 <= a <= 254 ->
  srgb_compose bits f a b =
  if srgb_blend bits f a b >? 255 then 255 else srgb_blend bits f a b.
Proof.
  intros Ha. unfold srgb_compose.
  destruct (Z.eqb_spec a 0) as [E | _]; [lia |].
  destruct (Z.eqb_spec a 255) as [E | _]; [lia |].
  reflexivity.
Qed.

Lemma clamp_is_min (raw : Z) : (if raw >? 255 then 255 else raw) = Z.min 255 raw.
Proof.
  rewrite Z.gtb_ltb.
  destruct (Z.ltb_spec 255 raw); lia.
Qed.

(** C1: for samples [f], [a], [b] with [1 <= a <= 254], the compositor
    returns [raw = f + ((255 - a) * b + 127) / 255], computed with floor
    division, replaced by 255 when [raw > 255]; that is
    [min 255 (f + ((255 - a) * b + 127) / 255)]. *)
Theorem srgb_compose_blend_clamped (f a b : Z) :
  is_sample f -> is_sample a -> is_sample b -> 1 <= a <= 254 ->
  let raw := f + ((255 - a) * b + 127) / 255 in
  srgb_compose bits f a b = (if raw >? 255 then 255 else raw) /\
  srgb_compose bits f a b = Z.min 255 raw.
Proof.
  intros Hf _ Hb Ha raw.
  rewrite (srgb_compose_partial f a b Ha).
  rewrite (srgb_blend_exact f a b Hf Ha Hb).
  fold raw. split; [reflexivity | apply clamp_is_min].
Qed.

(** C2: for samples [f], [a], [b] the result of the compositor is a sample
    again, a value in [0, 255]. *)
Theorem srgb_compose_range (f a b : Z) :
  is_sample f -> is_sample a -> is_sample b ->
  0 <= srgb_compose bits f a b <= 255.
Proof.
  intros Hf Ha Hb.
  unfold srgb_compose.
  destruct (Z.eqb_spec a 0) as [E0 | N0]; [exact Hb |].
  destruct (Z.eqb_spec a 255) as [E255 | N255]; [exact Hf |].
  assert (Hpart : 1 <= a <= 254) by (unfold is_sample in Ha; lia).
  cbv zeta.
  rewrite (srgb_blend_exact f a b Hf Hpart Hb), clamp_is_min.
  pose proof (share_bounds a b Hpart Hb).
  unfold is_sample in Hf. lia.
Qed.

(** C3: for a fixed sample [f] and a fixed alpha with [1 <= a <= 254], the
    compositor is weakly monotonic in the background: [b1 <= b2] gives
    [compose f a b1 <= compose f a b2] for samples [b1] and [b2]. *)
Theorem srgb_compose_background_monotone (f a b1 b2 : Z) :
  is_sample f -> 1 <= a <= 254 -> is_sample b1 -> is_sample b2 ->
  b1 <= b2 ->
  srgb_compose bits f a b1 <= srgb_compose bits f a b2.
Proof.
  intros Hf Ha Hb1 Hb2 Hle.
  rewrite !srgb_compose_partial by assumption.
  rewrite !srgb_blend_exact by assumption.
  rewrite !clamp_is_min.
  pose proof (share_monotone a b1 b2 Ha Hle).
  lia.
Qed.

(** C4: transparency identity.  For samples [f] and [b], the compositor at
    alpha 0 returns the background [b] unchanged. *)
Theorem srgb_compose_transparent (f b : Z) :
  is_sample f -> is_sample b -> srgb_compose bits f 0 b = b.
Proof.
  intros _ _. reflexivity.
Qed.

(** C5: opacity identity.  For samples [f] and [b], the compositor at
    alpha 255 returns the foreground [f] unchanged. *)
Theorem srgb_compose_opaque (f b : Z) :
  is_sample f -> is_sample b -> srgb_compose bits f 255 b = f.
Proof.
  intros _ _. reflexivity.
Qed.

(** C6: on the malformed premultiplied input of the first PoC vector,
    foreground 134 above alpha 118 over background 73, the compositor
    returns exactly 173. *)
Theorem srgb_compose_poc_case_1 : srgb_compose bits 134 118 73 = 173.
Proof.
  rewrite srgb_compose_partial by lia.
  rewrite srgb_blend_exact by (unfold is_sample; lia).
  reflexivity.
Qed.

(** C7: [compose 0 254 255 = 1] and [compose 0 253 255 = 2], so the results
    at these two adjacent alphas differ by exactly 1, as the [+ 127] of the
    numerator makes them. *)
Theorem srgb_compose_rounding_boundary :
  srgb_compose bits 0 254 255 = 1 /\
  srgb_compose bits 0 253 255 = 2 /\
  srgb_compose bits 0 253 255 - srgb_compose bits 0 254 255 = 1.
Proof.
  rewrite !srgb_compose_partial by lia.
  rewrite !srgb_blend_exact by (unfold is_sample; lia).
  repeat split; reflexivity.
Qed.

(** C9: for samples [f] and [b] and an alpha with [1 <= a <= 255], the
    composited result is never smaller than the foreground sample. *)
Theorem srgb_compose_ge_foreground (f a b : Z) :
  is_sample f -> is_sample b -> 1 <= a <= 255 ->
  f <= srgb_compose bits f a b.
Proof.
  intros Hf Hb Ha.
  destruct (Z.eq_dec a 255) as [-> | Hne].
  - apply Z.le_refl.
  - assert (Hpart : 1 <= a <= 254) by lia.
    rewrite (srgb_compose_partial f a b Hpart).
    rewrite (srgb_blend_exact f a b Hf Hpart Hb), clamp_is_min.
    pose proof (share_bounds a b Hpart Hb).
    unfold is_sample in Hf. lia.
Qed.

(** The machine's sub-expressions are the exact ones. *)
Lemma srgb_blend_trace_exact (f a b : Z) :
  is_sample f -> 1 <= a <= 254 -> is_sample b ->
  srgb_blend_trace bits f a b =
  [ 255 - a;
    (255 - a) * b;
    (255 - a) * b + 127;
    ((255 - a) * b + 127) / 255;
    f + ((255 - a) * b + 127) / 255 ].
Proof.
  intros Hf Ha Hb.
  pose proof (numerator_bounds a b Ha Hb) as Hn.
  pose proof (share_bounds a b Ha Hb) as Hs.
  unfold is_sample in *.
  unfold srgb_blend_trace, UInt.add, UInt.sub, UInt.mul, UInt.div.
  cbv zeta.
  rewrite (wrap_small bits bits_ge_16 (255 - a)) by lia.
  rewrite (wrap_small bits bits_ge_16 ((255 - a) * b)) by lia.
  rewrite (wrap_small bits bits_ge_16 ((255 - a) * b + 127)) by lia.
  rewrite (wrap_small bits bits_ge_16 (((255 - a) * b + 127) / 255)) by lia.
  rewrite (wrap_small bits bits_ge_16 (f + ((255 - a) * b + 127) / 255)) by lia.
  reflexivity.
Qed.

(** The exact sub-expressions on [N] and on [Z] are the same numbers. *)
Lemma blend_unbounded_steps_of_N (f a b : N) :
  (a <= 255)%N ->
  map Z.of_N (blend_unbounded_steps f a b) =
  [ 255 - Z.of_N a;
    (255 - Z.of_N a) * Z.of_N b;
    (255 - Z.of_N a) * Z.of_N b + 127;
    ((255 - Z.of_N a) * Z.of_N b + 127) / 255;
    Z.of_N f + ((255 - Z.of_N a) * Z.of_N b + 127) / 255 ].
Proof.
  intros Ha. unfold blend_unbounded_steps. cbn [map].
  rewrite ?N2Z.inj_add, ?N2Z.inj_div, ?N2Z.inj_add, ?N2Z.inj_mul.
  rewrite (N2Z.inj_sub 255 a Ha).
  reflexivity.
Qed.

Lemma blend_unbounded_of_N (f a b : N) :
  (a <= 255)%N ->
  Z.of_N (blend_unbounded f a b) =
  Z.of_N f + ((255 - Z.of_N a) * Z.of_N b + 127) / 255.
Proof.
  intros Ha. unfold blend_unbounded.
  rewrite N2Z.inj_add, N2Z.inj_div, N2Z.inj_add, N2Z.inj_mul.
  rewrite (N2Z.inj_sub 255 a Ha).
  reflexivity.
Qed.

(** C10: for natural numbers [f], [a], [b] up to 255 with [1 <= a <= 254],
    the unclamped value [f + ((255 - a) * b + 127) / 255] is at most 509;
    every sub-expression of the blend fits in an [unsigned int], the machine
    computes each of them without wrapping, and the machine's blend and the
    compositor's result are those of the expression over the unbounded
    naturals. *)
Theorem srgb_blend_no_wraparound (f a b : N) :
  (f <= 255)%N -> (1 <= a <= 254)%N -> (b <= 255)%N ->
  (blend_unbounded f a b <= 509)%N /\
  Forall (fun v => UInt.in_range bits (Z.of_N v))
         (blend_unbounded_steps f a b) /\
  srgb_blend_trace bits (Z.of_N f) (Z.of_N a) (Z.of_N b) =
    map Z.of_N (blend_unbounded_steps f a b) /\
  srgb_blend bits (Z.of_N f) (Z.of_N a) (Z.of_N b) =
    Z.of_N (blend_unbounded f a b) /\
  srgb_compose bits (Z.of_N f) (Z.of_N a) (Z.of_N b) =
    Z.of_N (N.min 255 (blend_unbounded f a b)).
Proof.
  intros Hf Ha Hb.
  assert (Hf' : is_sample (Z.of_N f)) by (unfold is_sample; lia).
  assert (Ha' : 1 <= Z.of_N a <= 254) by lia.
  assert (Hb' : is_sample (Z.of_N b)) by (unfold is_sample; lia).
  assert (Ha255 : (a <= 255)%N) by lia.
  pose proof (share_bounds _ _ Ha' Hb') as Hs.
  pose proof (blend_unbounded_of_N f a b Ha255) as Hraw.
  repeat split.
  - apply N2Z.inj_le. rewrite Hraw.
    change (Z.of_N 509) with 509. unfold is_sample in Hf'. lia.
  - apply Forall_forall. intros v Hv.
    apply (in_map Z.of_N) in Hv.
    rewrite (blend_unbounded_steps_of_N f a b Ha255) in Hv.
    pose proof (numerator_bounds _ _ Ha' Hb') as Hn.
    pose proof (max_value_ge_65535 bits bits_ge_16) as Hmax.
    unfold is_sample in Hf', Hb'. unfold UInt.in_range.
    cbn [In] in Hv.
    destruct Hv as [<- | [<- | [<- | [<- | [<- | []]]]]]; lia.
  - rewrite (srgb_blend_trace_exact _ _ _ Hf' Ha' Hb').
    symmetry. apply blend_unbounded_steps_of_N, Ha255.
  - rewrite (srgb_blend_exact _ _ _ Hf' Ha' Hb'). symmetry. exact Hraw.
  - rewrite (srgb_compose_partial _ _ _ Ha').
    rewrite (srgb_blend_exact _ _ _ Hf' Ha' Hb'), clamp_is_min.
    rewrite N2Z.inj_min, Hraw. reflexivity.
Qed.

End Compose_properties.

(** The bound on the width is needed: an [unsigned int] of 15 bits would
    wrap the numerator [254 * 255 + 127 = 64897] and return 125 where the
    exact blend is 254. *)
Example srgb_compose_wraps_below_16_bits :
  srgb_compose 15 0 1 255 = 125 /\ srgb_compose 16 0 1 255 = 254.
Proof.
  split; reflexivity.
Qed.

(** ** The table of vectors *)

(** C8: the vectors of the table over the default buffer value 73 have the
    alphas 118, 140, 242, 128 and 64.  One of them is partially transparent,
    but none has alpha 0: the row described as transparent on the default
    buffer, the 21st, carries alpha 128. *)
Theorem tests_on_default_buffer :
  map alpha (filter on_default_buffer tests) = [118; 140; 242; 128; 64] /\
  existsb (fun t => on_default_buffer t && is_partial t) tests = true /\
  existsb (fun t => on_default_buffer t && is_transparent t) tests = false /\
  nth_error tests 20 =
    Some (mk_test_vector 0 128 73 36 "transparent on default buffer").
Proof.
  repeat split; reflexivity.
Qed.

(** Every vector of the table has samples in all four numeric fields. *)
Lemma tests_are_samples :
  Forall (fun t => is_sample (fg t) /\ is_sample (alpha t) /\
                   is_sample (bg t) /\ is_sample (expected t)) tests.
Proof.
  unfold tests, is_sample.
  repeat (constructor; [cbn; lia |]).
  constructor.
Qed.

(** ** The first batch passes *)

Section Verifier_properties.

Variable bits : Z.

Hypothesis bits_ge_16 : 16 <= bits.

(** The compositor on samples does not depend on the width of
    [unsigned int], as long as it has the 16 bits the language promises. *)
Lemma srgb_compose_any_width (f a b : Z) :
  is_sample f -> is_sample a -> is_sample b ->
  srgb_compose bits f a b = srgb_compose 16 f a b.
Proof.
  intros Hf Ha Hb. unfold srgb_compose.
  destruct (a =? 0); [reflexivity |].
  destruct (Z.eqb_spec a 255) as [E | N255]; [reflexivity |].
  destruct (Z.eq_dec a 0) as [-> | N0].
  - (* the blend at alpha 0 stays below [2^16] as well *)
    assert (H0 : forall w, 16 <= w -> srgb_blend w f 0 b = f + (255 * b + 127) / 255).
    { intros w Hw. unfold is_sample in *.
      assert (0 <= (255 * b + 127) / 255 <= 255).
      { split; [apply Z.div_pos; lia |].
        apply Z.lt_succ_r, Z.div_lt_upper_bound; lia. }
      unfold srgb_blend, UInt.add, UInt.sub, UInt.mul, UInt.div.
      change (255 - 0) with 255.
      rewrite (wrap_small w Hw 255) by lia.
      rewrite (wrap_small w Hw (255 * b)) by lia.
      rewrite (wrap_small w Hw (255 * b + 127)) by lia.
      rewrite (wrap_small w Hw ((255 * b + 127) / 255)) by lia.
      apply wrap_small; [assumption | lia]. }
    cbv zeta. rewrite (H0 bits bits_ge_16), (H0 16) by lia. reflexivity.
  - assert (Hpart : 1 <= a <= 254) by (unfold is_sample in Ha; lia).
    cbv zeta.
    rewrite (srgb_blend_exact bits bits_ge_16 f a b Hf Hpart Hb).
    rewrite (srgb_blend_exact 16 (Z.le_refl 16) f a b Hf Hpart Hb).
    reflexivity.
Qed.

Lemma run_test_any_width (failures : Z) (t : test_vector) :
  is_sample (fg t) -> is_sample (alpha t) -> is_sample (bg t) ->
  run_test bits failures t = run_test 16 failures t.
Proof.
  intros Hf Ha Hb. unfold run_test.
  rewrite (srgb_compose_any_width _ _ _ Hf Ha Hb).
  reflexivity.
Qed.

Lemma fold_run_test_any_width (ts : list test_vector) :
  Forall (fun t => is_sample (fg t) /\ is_sample (alpha t) /\
                   is_sample (bg t) /\ is_sample (expected t)) ts ->
  forall failures,
    fold_left (run_test bits) ts failures = fold_left (run_test 16) ts failures.
Proof.
  induction 1 as [| t ts (Hf & Ha & Hb & _) _ IH]; intros failures.
  - reflexivity.
  - cbn [fold_left].
    rewrite (run_test_any_width failures t Hf Ha Hb).
    apply IH.
Qed.

(** [run_tests] counts no failure: the compositor returns the expected
    value of each of the 24 vectors. *)
Lemma run_tests_no_failure : run_tests bits = 0.
Proof.
  unfold run_tests.
  rewrite (fold_run_test_any_width tests tests_are_samples 0).
  reflexivity.
Qed.

End Verifier_properties.

(** ** The theorems at concrete samples, on a 32-bit [unsigned int] *)

Lemma sample_200 : is_sample 200.
Proof. unfold is_sample. lia. Defined.

Lemma sample_50 : is_sample 50.
Proof. unfold is_sample. lia. Defined.

Lemma sample_100 : is_sample 100.
Proof. unfold is_sample. lia. Defined.

Lemma width_32 : 16 <= 32.
Proof. lia. Defined.

Lemma partial_50 : 1 <= 50 <= 254.
Proof. lia. Defined.

Lemma srgb_compose_blend_clamped_witness :
  (16 <= 32 /\ is_sample 200 /\ is_sample 50 /\ 1 <= 50 <= 254) /\
  srgb_compose 32 200 50 200 = (if 361 >? 255 then 255 else 361) /\
  srgb_compose 32 200 50 200 = Z.min 255 361.
Proof.
  split.
  - repeat split; unfold is_sample; lia.
  - exact (srgb_compose_blend_clamped 32 width_32 200 50 200
             sample_200 sample_50 sample_200 partial_50).
Defined.

Lemma srgb_compose_range_witness :
  (16 <= 32 /\ is_sample 200 /\ is_sample 50) /\
  0 <= srgb_compose 32 200 50 200 <= 255.
Proof.
  split.
  - repeat split; unfold is_sample; lia.
  - exact (srgb_compose_range 32 width_32 200 50 200
             sample_200 sample_50 sample_200).
Defined.

Lemma srgb_compose_background_monotone_witness :
  (16 <= 32 /\ is_sample 100 /\ 1 <= 50 <= 254 /\ is_sample 50 /\
   is_sample 200 /\ 50 <= 200) /\
  srgb_compose 32 100 50 50 <= srgb_compose 32 100 50 200.
Proof.
  split.
  - repeat split; unfold is_sample; lia.
  - apply (srgb_compose_background_monotone 32 width_32 100 50 50 200
             sample_100 partial_50 sample_50 sample_200).
    lia.
Defined.

Lemma srgb_compose_transparent_witness :
  (is_sample 123 /\ is_sample 45) /\ srgb_compose 32 123 0 45 = 45.
Proof.
  assert (Hf : is_sample 123) by (unfold is_sample; lia).
  assert (Hb : is_sample 45) by (unfold is_sample; lia).
  split.
  - split; assumption.
  - exact (srgb_compose_transparent 32 123 45 Hf Hb).
Defined.

Lemma srgb_compose_opaque_witness :
  (is_sample 100 /\ is_sample 200) /\ srgb_compose 32 100 255 200 = 100.
Proof.
  split.
  - split; [exact sample_100 | exact sample_200].
  - exact (srgb_compose_opaque 32 100 200 sample_100 sample_200).
Defined.

Lemma srgb_compose_poc_case_1_witness :
  16 <= 32 /\ srgb_compose 32 134 118 73 = 173.
Proof.
  split.
  - lia.
  - exact (srgb_compose_poc_case_1 32 width_32).
Defined.

Lemma srgb_compose_rounding_boundary_witness :
  16 <= 32 /\
  srgb_compose 32 0 254 255 = 1 /\
  srgb_compose 32 0 253 255 = 2 /\
  srgb_compose 32 0 253 255 - srgb_compose 32 0 254 255 = 1.
Proof.
  split.
  - lia.
  - exact (srgb_compose_rounding_boundary 32 width_32).
Defined.

Lemma srgb_compose_ge_foreground_witness :
  (16 <= 32 /\ is_sample 100 /\ is_sample 200 /\ 1 <= 50 <= 255) /\
  100 <= srgb_compose 32 100 50 200.
Proof.
  split.
  - repeat split; unfold is_sample; lia.
  - apply (srgb_compose_ge_foreground 32 width_32 100 50 200
             sample_100 sample_200).
    lia.
Defined.

Lemma srgb_blend_no_wraparound_witness :
  (16 <= 32 /\ (254 <= 255)%N /\ (1 <= 1 <= 254)%N) /\
  (blend_unbounded 254 1 254 <= 509)%N /\
  Forall (fun v => UInt.in_range 32 (Z.of_N v))
         (blend_unbounded_steps 254 1 254) /\
  srgb_blend_trace 32 254 1 254 = [254; 64516; 64643; 253; 507] /\
  srgb_blend 32 254 1 254 = 507 /\
  srgb_compose 32 254 1 254 = 255.
Proof.
  split.
  - repeat split; lia.
  - apply (srgb_blend_no_wraparound 32 width_32 254 1 254); lia.
Defined.

(** * Further properties of the compositor *)

(** The rounded share at the two ends of the alpha range. *)
Lemma share_at_opaque (b : Z) : is_sample b -> ((255 - 255) * b + 127) / 255 = 0.
Proof.
  intros _. rewrite Z.sub_diag, Z.mul_0_l. reflexivity.
Qed.

Lemma share_at_transparent (b : Z) : ((255 - 0) * b + 127) / 255 = b.
Proof.
  rewrite Z.sub_0_r, (Z.mul_comm 255 b), Z.div_add_l by lia.
  change (127 / 255) with 0. lia.
Qed.

(** The share never exceeds the background, nor what alpha leaves free. *)
Lemma share_le_background (a b : Z) :
  0 <= a <= 255 -> is_sample b -> ((255 - a) * b + 127) / 255 <= b.
Proof.
  unfold is_sample. intros Ha Hb.
  apply Z.lt_succ_r, Z.div_lt_upper_bound; nia.
Qed.

Lemma share_le_transparency (a b : Z) :
  0 <= a <= 255 -> is_sample b -> ((255 - a) * b + 127) / 255 <= 255 - a.
Proof.
  unfold is_sample. intros Ha Hb.
  apply Z.lt_succ_r, Z.div_lt_upper_bound; nia.
Qed.

Lemma share_nonneg (a b : Z) :
  0 <= a <= 255 -> is_sample b -> 0 <= ((255 - a) * b + 127) / 255.
Proof.
  unfold is_sample. intros Ha Hb.
  apply Z.div_pos; nia.
Qed.

(** The share shrinks as alpha grows. *)
Lemma share_antitone (a1 a2 b : Z) :
  a1 <= a2 -> 0 <= b ->
  ((255 - a2) * b + 127) / 255 <= ((255 - a1) * b + 127) / 255.
Proof.
  intros Ha Hb.
  apply Z.div_le_mono; [lia | nia].
Qed.

(** One more unit of background adds at most one unit of share. *)
Lemma share_nonexpansive (a b1 b2 : Z) :
  0 <= a <= 255 -> b1 <= b2 ->
  ((255 - a) * b2 + 127) / 255 - ((255 - a) * b1 + 127) / 255 <= b2 - b1.
Proof.
  intros Ha Hb.
  assert (E : (255 - a) * b1 + 127 + (b2 - b1) * 255 =
              (255 - a) * b2 + 127 + a * (b2 - b1)) by ring.
  assert (H : ((255 - a) * b2 + 127) / 255 <=
              ((255 - a) * b1 + 127 + (b2 - b1) * 255) / 255).
  { rewrite E. apply Z.div_le_mono; [lia | nia]. }
  rewrite Z.div_add in H by lia.
  lia.
Qed.

Section Compose_further.

Variable bits : Z.

Hypothesis bits_ge_16 : 16 <= bits.

(** On samples the compositor is the background at alpha 0 and the clamped
    blend at every other alpha, 255 included. *)
Lemma srgb_compose_on_samples (f a b : Z) :
  is_sample f -> is_sample a -> is_sample b ->
  srgb_compose bits f a b =
  if a =? 0 then b else Z.min 255 (f + ((255 - a) * b + 127) / 255).
Proof.
  intros Hf Ha Hb. unfold srgb_compose.
  destruct (Z.eqb_spec a 0) as [E0 | N0]; [reflexivity |].
  destruct (Z.eqb_spec a 255) as [-> | N255].
  - rewrite (share_at_opaque b Hb). unfold is_sample in Hf. lia.
  - assert (Hpart : 1 <= a <= 254) by (unfold is_sample in Ha; lia).
    cbv zeta.
    rewrite (srgb_blend_exact bits bits_ge_16 f a b Hf Hpart Hb).
    apply clamp_is_min.
Qed.

(** X1: when the premultiplied invariant [f <= a] holds, the clamp never
    fires and no branch is needed: for every alpha from 0 to 255 the result
    is [f + ((255 - a) * b + 127) / 255]. *)
Theorem srgb_compose_premultiplied (f a b : Z) :
  is_sample f -> is_sample a -> is_sample b -> f <= a ->
  srgb_compose bits f a b = f + ((255 - a) * b + 127) / 255.
Proof.
  intros Hf Ha Hb Hfa.
  rewrite (srgb_compose_on_samples f a b Hf Ha Hb).
  destruct (Z.eqb_spec a 0) as [-> | N0].
  - rewrite share_at_transparent. unfold is_sample in Hf. lia.
  - pose proof (share_le_transparency a b Ha Hb). lia.
Qed.

(** X2: the opaque branch is a shortcut.  For every alpha from 1 to 255 the
    result is the clamped blend [min 255 (f + ((255 - a) * b + 127) / 255)];
    at alpha 255 the share of the background rounds to 0. *)
Theorem srgb_compose_opaque_is_blend (f a b : Z) :
  is_sample f -> is_sample b -> 1 <= a <= 255 ->
  srgb_compose bits f a b = Z.min 255 (f + ((255 - a) * b + 127) / 255).
Proof.
  intros Hf Hb Ha.
  assert (Ha' : is_sample a) by (unfold is_sample; lia).
  rewrite (srgb_compose_on_samples f a b Hf Ha' Hb).
  destruct (Z.eqb_spec a 0); [lia | reflexivity].
Qed.

(** X3: the transparent branch is not a shortcut.  At alpha 0 the blend
    expression evaluates, without wrapping, to [f + b], and its clamped
    value is the result of the compositor only when [f = 0] or [b = 255]. *)
Theorem srgb_compose_transparent_is_not_blend (f b : Z) :
  is_sample f -> is_sample b ->
  srgb_blend bits f 0 b = f + b /\
  (srgb_compose bits f 0 b =
     (if srgb_blend bits f 0 b >? 255 then 255 else srgb_blend bits f 0 b)
   <-> f = 0 \/ b = 255).
Proof.
  intros Hf Hb.
  assert (E : srgb_blend bits f 0 b = f + b).
  { unfold is_sample in *.
    unfold srgb_blend, UInt.add, UInt.sub, UInt.mul, UInt.div.
    change (255 - 0) with 255.
    rewrite (wrap_small bits bits_ge_16 255) by lia.
    rewrite (wrap_small bits bits_ge_16 (255 * b)) by lia.
    rewrite (wrap_small bits bits_ge_16 (255 * b + 127)) by lia.
    replace ((255 * b + 127) / 255) with b
      by (symmetry; exact (share_at_transparent b)).
    rewrite (wrap_small bits bits_ge_16 b) by lia.
    apply wrap_small; [assumption | lia]. }
  split; [exact E |].
  rewrite E, clamp_is_min.
  change (srgb_compose bits f 0 b) with b.
  unfold is_sample in *. lia.
Qed.

(** X4: at every alpha the compositor is monotonic and non-expansive in the
    foreground: raising the foreground by [d] raises the result, by no more
    than [d]. *)
Theorem srgb_compose_foreground_nonexpansive (f1 f2 a b : Z) :
  is_sample f1 -> is_sample f2 -> is_sample a -> is_sample b ->
  f1 <= f2 ->
  0 <= srgb_compose bits f2 a b - srgb_compose bits f1 a b <= f2 - f1.
Proof.
  intros Hf1 Hf2 Ha Hb Hle.
  rewrite (srgb_compose_on_samples f1 a b Hf1 Ha Hb).
  rewrite (srgb_compose_on_samples f2 a b Hf2 Ha Hb).
  destruct (a =? 0); lia.
Qed.

(** X5: at every alpha, 0 and 255 included, the compositor is monotonic and
    non-expansive in the background: raising the background by [d] raises
    the result, by no more than [d]. *)
Theorem srgb_compose_background_nonexpansive (f a b1 b2 : Z) :
  is_sample f -> is_sample a -> is_sample b1 -> is_sample b2 ->
  b1 <= b2 ->
  0 <= srgb_compose bits f a b2 - srgb_compose bits f a b1 <= b2 - b1.
Proof.
  intros Hf Ha Hb1 Hb2 Hle.
  rewrite (srgb_compose_on_samples f a b1 Hf Ha Hb1).
  rewrite (srgb_compose_on_samples f a b2 Hf Ha Hb2).
  destruct (a =? 0); [lia |].
  assert (Ha' : 0 <= a <= 255) by exact Ha.
  pose proof (share_nonexpansive a b1 b2 Ha' Hle).
  assert (((255 - a) * b1 + 127) / 255 <= ((255 - a) * b2 + 127) / 255)
    by (apply Z.div_le_mono; [lia | nia]).
  lia.
Qed.

(** X6: from alpha 1 upwards a larger alpha never gives a larger result:
    the background shows through less. *)
Theorem srgb_compose_alpha_antitone (f a1 a2 b : Z) :
  is_sample f -> is_sample b -> 1 <= a1 -> a1 <= a2 -> a2 <= 255 ->
  srgb_compose bits f a2 b <= srgb_compose bits f a1 b.
Proof.
  intros Hf Hb H1 H12 H2.
  assert (Ha1 : is_sample a1) by (unfold is_sample; lia).
  assert (Ha2 : is_sample a2) by (unfold is_sample; lia).
  rewrite (srgb_compose_on_samples f a1 b Hf Ha1 Hb).
  rewrite (srgb_compose_on_samples f a2 b Hf Ha2 Hb).
  destruct (Z.eqb_spec a1 0); [lia |].
  destruct (Z.eqb_spec a2 0); [lia |].
  assert (Hb0 : 0 <= b) by apply Hb.
  pose proof (share_antitone a1 a2 b H12 Hb0).
  lia.
Qed.

(** X7: the result lies between the smaller of foreground and background
    and their sum: the background never adds more than itself. *)
Theorem srgb_compose_between (f a b : Z) :
  is_sample f -> is_sample a -> is_sample b ->
  Z.min f b <= srgb_compose bits f a b <= Z.min 255 (f + b).
Proof.
  intros Hf Ha Hb.
  rewrite (srgb_compose_on_samples f a b Hf Ha Hb).
  assert (Ha' : 0 <= a <= 255) by exact Ha.
  pose proof (share_le_background a b Ha' Hb).
  pose proof (share_nonneg a b Ha' Hb).
  unfold is_sample in *.
  destruct (a =? 0); lia.
Qed.

(** X8: over a black background every alpha but 0 returns the foreground
    unchanged. *)
Theorem srgb_compose_on_black (f a : Z) :
  is_sample f -> 1 <= a <= 255 -> srgb_compose bits f a 0 = f.
Proof.
  intros Hf Ha.
  assert (Ha' : is_sample a) by (unfold is_sample; lia).
  assert (H0 : is_sample 0) by (unfold is_sample; lia).
  rewrite (srgb_compose_on_samples f a 0 Hf Ha' H0).
  destruct (Z.eqb_spec a 0); [lia |].
  rewrite Z.mul_0_r. change ((0 + 127) / 255) with 0.
  unfold is_sample in Hf. lia.
Qed.

(** X9: rounding to nearest.  Whenever the result stays below 255, what it
    adds to the foreground is within half a unit of the exact share
    [(255 - a) * b / 255] of the background: 255 times one differs from 255
    times the other by at most 127. *)
Theorem srgb_compose_rounds_to_nearest (f a b : Z) :
  is_sample f -> is_sample b -> 1 <= a <= 255 ->
  srgb_compose bits f a b < 255 ->
  - 127 <= 255 * (srgb_compose bits f a b - f) - (255 - a) * b <= 127.
Proof.
  intros Hf Hb Ha.
  assert (Ha' : is_sample a) by (unfold is_sample; lia).
  rewrite (srgb_compose_on_samples f a b Hf Ha' Hb).
  destruct (Z.eqb_spec a 0); [lia |].
  intros Hlt.
  pose proof (Z.div_mod ((255 - a) * b + 127) 255 ltac:(lia)) as Hdm.
  pose proof (Z.mod_pos_bound ((255 - a) * b + 127) 255 ltac:(lia)) as Hm.
  lia.
Qed.

End Compose_further.

(** X10: in the blend branch the clamp holds for all arguments, samples or
    not, whatever wraps on the way: with an alpha other than 0 and 255 the
    result is in [0, 255]. *)
Theorem srgb_compose_blend_branch_range (bits f a b : Z) :
  0 <= bits -> a <> 0 -> a <> 255 ->
  0 <= srgb_compose bits f a b <= 255.
Proof.
  intros Hbits N0 N255. unfold srgb_compose.
  destruct (Z.eqb_spec a 0); [contradiction |].
  destruct (Z.eqb_spec a 255); [contradiction |].
  cbv zeta.
  assert (Hpos : 0 < UInt.modulus bits)
    by (unfold UInt.modulus; apply Z.pow_pos_nonneg; lia).
  assert (H0 : 0 <= srgb_blend bits f a b).
  { unfold srgb_blend, UInt.add, UInt.wrap.
    apply Z.mod_pos_bound, Hpos. }
  rewrite clamp_is_min. lia.
Qed.

(** X11: on samples the result is the same on every width of
    [unsigned int] from 16 bits upwards. *)
Theorem srgb_compose_width_independent (bits1 bits2 f a b : Z) :
  16 <= bits1 -> 16 <= bits2 ->
  is_sample f -> is_sample a -> is_sample b ->
  srgb_compose bits1 f a b = srgb_compose bits2 f a b.
Proof.
  intros H1 H2 Hf Ha Hb.
  rewrite (srgb_compose_any_width bits1 H1 f a b Hf Ha Hb).
  rewrite (srgb_compose_any_width bits2 H2 f a b Hf Ha Hb).
  reflexivity.
Qed.

(** * The harness *)

(** ** Outcomes *)

Lemma bind_Done {A B : Type} (m : Harness.outcome A)
      (k : A -> Harness.outcome B) (b : B) (out : list string) :
  Harness.bind m k = Harness.Done b out ->
  exists a out1 out2,
    m = Harness.Done a out1 /\ k a = Harness.Done b out2 /\
    out = out1 ++ out2.
Proof.
  unfold Harness.bind.
  destruct m as [a out1 | |]; try discriminate.
  destruct (k a) as [b' out2 | |] eqn:Ek; try discriminate.
  intros E. injection E as <- <-.
  exists a, out1, out2. auto.
Qed.

Lemma bind_Done_intro {A B : Type} (m : Harness.outcome A)
      (k : A -> Harness.outcome B) (a : A) (b : B) (out1 out2 : list string) :
  m = Harness.Done a out1 -> k a = Harness.Done b out2 ->
  Harness.bind m k = Harness.Done b (out1 ++ out2).
Proof.
  intros -> E. unfold Harness.bind. rewrite E. reflexivity.
Qed.

Lemma ret_Done {A : Type} (a b : A) (out : list string) :
  Harness.ret a = Harness.Done b out -> b = a /\ out = [].
Proof.
  unfold Harness.ret. intros E. injection E as <- <-. auto.
Qed.

Lemma printf_Done (fmt : string) (args : list Harness.arg) (u : unit)
      (out : list string) :
  Harness.printf fmt args = Harness.Done u out ->
  out = [Harness.format fmt args].
Proof.
  unfold Harness.printf. intros E. injection E as _ <-. reflexivity.
Qed.

Lemma int_add_Done (bits x y r : Z) (out : list string) :
  Harness.int_add bits x y = Harness.Done r out -> r = x + y /\ out = [].
Proof.
  unfold Harness.int_add, Harness.ret.
  destruct (_ && _); [| discriminate].
  intros E. injection E as <- <-. auto.
Qed.

Lemma int_add_in_range (bits x y : Z) :
  Harness.INT_MIN bits <= x + y <= Harness.INT_MAX bits ->
  Harness.int_add bits x y = Harness.Done (x + y) [].
Proof.
  intros [Hlo Hhi]. unfold Harness.int_add.
  apply Z.leb_le in Hlo, Hhi. rewrite Hlo, Hhi. reflexivity.
Qed.

Lemma INT_MAX_ge_32767 (bits : Z) : 16 <= bits -> 32767 <= Harness.INT_MAX bits.
Proof.
  intros H. unfold Harness.INT_MAX.
  assert (2 ^ 15 <= 2 ^ (bits - 1)) by (apply Z.pow_le_mono_r; lia).
  change (2 ^ 15) with 32768 in *. lia.
Qed.

Lemma INT_MIN_le_0 (bits : Z) : Harness.INT_MIN bits <= 0.
Proof.
  unfold Harness.INT_MIN.
  pose proof (Z.pow_nonneg 2 (bits - 1)). lia.
Qed.

(** ** Loops *)

Section Loop_facts.

Context {S : Type}.

Variable fails : S -> Z.
Variable cond : Z -> bool.
Variable next : Z -> Z.
Variable body : Z -> S -> Harness.outcome S.

(** [I vs s]: the state [s] is a right one when [vs] is left to visit. *)
Variable I : list Z -> S -> Prop.

(** [ok v]: the check made at index [v] passes. *)
Variable ok : Z -> Prop.

(** A loop whose body never lowers the counter, and raises it where the
    check fails, does not lower it either, and leaves it as it was only if
    every check passed. *)
Lemma for_loop_sound :
  (forall v vs s s' out,
      I (v :: vs) s -> body v s = Harness.Done s' out ->
      I vs s' /\ fails s <= fails s' /\ (fails s' = fails s -> ok v)) ->
  forall vs fuel i s s' out,
    visits cond next i vs -> I vs s ->
    Harness.for_loop cond next body fuel i s = Harness.Done s' out ->
    I [] s' /\ fails s <= fails s' /\ (fails s' = fails s -> Forall ok vs).
Proof.
  intros Hbody.
  induction vs as [| v vs IH]; intros fuel i s s' out Hv HI Hrun.
  - destruct fuel as [| fuel]; [discriminate |].
    cbn in Hv, Hrun. rewrite Hv in Hrun.
    injection Hrun as <- _.
    repeat split; [assumption | lia | constructor].
  - destruct fuel as [| fuel]; [discriminate |].
    cbn in Hv. destruct Hv as (-> & Hc & Hv).
    cbn in Hrun. rewrite Hc in Hrun.
    apply bind_Done in Hrun as (s1 & o1 & o2 & Hb & Hrest & _).
    destruct (Hbody _ _ _ _ _ HI Hb) as (HI1 & Hle1 & Hok1).
    destruct (IH _ _ _ _ _ Hv HI1 Hrest) as (HI' & Hle' & Hok').
    repeat split; [assumption | lia |].
    intros E. constructor; [apply Hok1 | apply Hok']; lia.
Qed.

(** A loop whose checks all pass, and whose body then prints nothing, ends
    without printing, given one unit of fuel more than it has indices. *)
Lemma for_loop_complete :
  (forall v vs s,
      I (v :: vs) s -> ok v ->
      exists s', body v s = Harness.Done s' [] /\ I vs s') ->
  forall vs fuel i s,
    visits cond next i vs -> (List.length vs < fuel)%nat ->
    I vs s -> Forall ok vs ->
    exists s',
      Harness.for_loop cond next body fuel i s = Harness.Done s' [] /\
      I [] s'.
Proof.
  intros Hbody.
  induction vs as [| v vs IH]; intros fuel i s Hv Hfuel HI Hok.
  - destruct fuel as [| fuel]; [cbn in Hfuel; lia |].
    cbn in Hv |- *. rewrite Hv. exists s. auto.
  - destruct fuel as [| fuel]; [cbn in Hfuel; lia |].
    cbn in Hv. destruct Hv as (-> & Hc & Hv).
    inversion Hok as [| ? ? Hok1 Hok']; subst.
    destruct (Hbody _ _ _ HI Hok1) as (s1 & Hb & HI1).
    cbn in Hfuel.
    destruct (IH fuel _ s1 Hv ltac:(lia) HI1 Hok') as (s' & Hrest & HI').
    exists s'. split; [| assumption].
    cbn. rewrite Hc.
    exact (bind_Done_intro _ _ _ _ _ _ Hb Hrest).
Qed.

End Loop_facts.

(** ** The indices of the sweeps *)

Section Strides.

Variable bits : Z.

Hypothesis bits_ge_16 : 16 <= bits.

Lemma visits_stride (cond : Z -> bool) (step : Z) :
  0 <= step ->
  forall n start,
    0 <= start ->
    start + Z.of_nat n * step < 65536 ->
    forallb cond (stride_values step n start) = true ->
    cond (start + Z.of_nat n * step) = false ->
    visits cond (fun x => UInt.add bits x step) start
           (stride_values step n start).
Proof.
  intros Hstep.
  induction n as [| n IH]; intros start Hstart Hend Hall Hstop.
  - cbn in *. rewrite Z.add_0_r in Hstop. exact Hstop.
  - cbn [stride_values forallb] in Hall.
    apply andb_true_iff in Hall as [Hc Hall].
    cbn [stride_values visits].
    repeat split; [exact Hc |].
    assert (E : UInt.add bits start step = start + step).
    { unfold UInt.add. apply wrap_small; [assumption | nia]. }
    rewrite E.
    apply IH; [lia | lia | exact Hall |].
    replace (start + step + Z.of_nat n * step)
      with (start + Z.of_nat (Datatypes.S n) * step) by lia.
    exact Hstop.
Qed.

End Strides.

Lemma In_stride_1 (n : nat) :
  forall start x,
    In x (stride_values 1 n start) <-> start <= x < start + Z.of_nat n.
Proof.
  induction n as [| n IH]; intros start x.
  - cbn. lia.
  - cbn [stride_values In]. rewrite IH. lia.
Qed.

(** ** The four sweeps *)

(** Takes apart the hypotheses that a sequence of steps ran to its end. *)
Ltac invert_run :=
  repeat match goal with
    | H : Harness.bind _ _ = Harness.Done _ _ |- _ =>
        let a := fresh "a" in
        let o1 := fresh "o" in
        let o2 := fresh "o" in
        let H1 := fresh "Hrun" in
        let H2 := fresh "Hrun" in
        let Ho := fresh "Hout" in
        apply bind_Done in H; destruct H as (a & o1 & o2 & H1 & H2 & Ho)
    | H : Harness.ret _ = Harness.Done _ _ |- _ =>
        apply ret_Done in H; destruct H as [? ?]; subst
    | H : Harness.printf _ _ = Harness.Done _ _ |- _ =>
        apply printf_Done in H; subst
    | H : (_, _) = (_, _) |- _ =>
        injection H as ? ?; subst
    | H : Harness.int_add _ _ _ = Harness.Done _ _ |- _ =>
        apply int_add_Done in H; destruct H as [? ?]; subst
    end.

(** Splits the states that are pairs into their components. *)
Ltac split_state :=
  repeat match goal with
    | s : (_ * _)%type |- _ => destruct s
    end.

(** Names the hypothesis that a loop ran to its end. *)
Ltac find_loop name :=
  match goal with
  | H : Harness.for_loop _ _ _ _ _ _ = Harness.Done _ _ |- _ => rename H into name
  end.

(** Runs the first loop of the goal to its end by [for_loop_complete]. *)
Ltac loop_completes I ok name :=
  match goal with
  | |- context [Harness.for_loop ?c ?n ?b ?f0 ?i0 ?s0] =>
      let s' := fresh "s" in
      edestruct (for_loop_complete c n b I ok)
        with (fuel := f0) (i := i0) (s := s0) as (s' & name)
  end.

Lemma grid51_stride : grid51 = stride_values 51 6 0.
Proof. reflexivity. Qed.

Lemma grid17_stride : grid17 = stride_values 17 16 0.
Proof. reflexivity. Qed.

Lemma alpha_grid_stride : alpha_grid = stride_values 51 5 1.
Proof. reflexivity. Qed.

Arguments Harness.format : simpl never.

Section Sweeps.

Variable bits : Z.

Variable compose : Z -> Z -> Z -> Z.

Variable fuel : nat.

Hypothesis bits_ge_16 : 16 <= bits.

Lemma visits_grid51 :
  visits (fun x => x <=? 255) (fun x => UInt.add bits x 51) 0 grid51.
Proof.
  rewrite grid51_stride.
  apply (visits_stride bits bits_ge_16); try reflexivity; lia.
Qed.

Lemma visits_grid17 :
  visits (fun x => x <=? 255) (fun x => UInt.add bits x 17) 0 grid17.
Proof.
  rewrite grid17_stride.
  apply (visits_stride bits bits_ge_16); try reflexivity; lia.
Qed.

Lemma visits_alpha_grid :
  visits (fun x => x <? 255) (fun x => UInt.add bits x 51) 1 alpha_grid.
Proof.
  rewrite alpha_grid_stride.
  apply (visits_stride bits bits_ge_16); try reflexivity; lia.
Qed.

Lemma visits_samples :
  visits (fun x => x <=? 255) (fun x => UInt.add bits x 1) 0
         (stride_values 1 256 0).
Proof.
  apply (visits_stride bits bits_ge_16); try reflexivity; lia.
Qed.

Lemma visits_backgrounds :
  visits (fun x => x <=? 255) (fun x => UInt.add bits x 1) 1
         (stride_values 1 255 1).
Proof.
  apply (visits_stride bits bits_ge_16); try reflexivity; lia.
Qed.

(** *** Property 1 *)

Lemma property_1_sound (failures failures' : Z) (out : list string) :
  Harness.property_1 bits compose fuel failures = Harness.Done failures' out ->
  failures <= failures' /\
  (failures' = failures -> transparency_on_grid compose).
Proof.
  unfold Harness.property_1. intros Hrun. invert_run.
  find_loop Hloop.
  eapply (for_loop_sound (fun s : Z => s) _ _ _ (fun _ _ => True)
            (fun bg => Forall (fun fg => compose fg 0 bg = bg) grid51))
    in Hloop; [| | exact visits_grid51 | exact Logic.I].
  - destruct Hloop as (_ & Hle & Hok).
    split; [exact Hle |].
    intros E fg bg Hfg Hbg.
    specialize (Hok E).
    rewrite Forall_forall in Hok. specialize (Hok bg Hbg).
    rewrite Forall_forall in Hok. exact (Hok fg Hfg).
  - intros bg vs s s' o _ Hin.
    eapply (for_loop_sound (fun s : Z => s) _ _ _ (fun _ _ => True)
              (fun fg => compose fg 0 bg = bg))
      in Hin; [| | exact visits_grid51 | exact Logic.I].
    + destruct Hin as (_ & Hle & Hok). auto.
    + intros fg vs' t t' o' _ Hb. cbv zeta in Hb.
      destruct (Z.eqb_spec (compose fg 0 bg) bg) as [E | N];
        cbn [negb] in Hb; invert_run.
      * auto with zarith.
      * split; [exact Logic.I |]. split; lia.
Qed.

Lemma property_1_complete (failures : Z) :
  (6 < fuel)%nat -> transparency_on_grid compose ->
  Harness.property_1 bits compose fuel failures =
  Harness.Done failures
    (Harness.format "Property 1: alpha=0 => result = background\n" [] ::
     if failures =? 0 then [Harness.format "  PASS\n" []] else []).
Proof.
  intros Hfuel Hok.
  unfold Harness.property_1.
  loop_completes (fun (_ : list Z) (s : Z) => s = failures)
                 (fun bg => In bg grid51) Hloop;
    [ | exact visits_grid51 | exact Hfuel | reflexivity
      | apply Forall_forall; auto | ].
  - intros bg vs s -> Hbg.
    loop_completes (fun (_ : list Z) (s : Z) => s = failures)
                   (fun fg => In fg grid51) Hin;
      [ | exact visits_grid51 | exact Hfuel | reflexivity
        | apply Forall_forall; auto | ].
    + intros fg vs' s -> Hfg.
      rewrite (Hok fg bg Hfg Hbg), Z.eqb_refl.
      exists failures. auto.
    + destruct Hin as [Hin ->]. exists failures. auto.
  - destruct Hloop as [Hloop ->]. rewrite Hloop. cbn.
    destruct (failures =? 0); reflexivity.
Qed.

(** *** Property 2 *)

Lemma property_2_sound (failures failures' : Z) (out : list string) :
  Harness.property_2 bits compose fuel failures = Harness.Done failures' out ->
  failures <= failures' /\
  (failures' = failures -> opacity_on_grid compose).
Proof.
  unfold Harness.property_2. intros Hrun. invert_run.
  find_loop Hloop.
  eapply (for_loop_sound (fun s : Z => s) _ _ _ (fun _ _ => True)
            (fun fg => Forall (fun bg => compose fg 255 bg = fg) grid51))
    in Hloop; [| | exact visits_grid51 | exact Logic.I].
  - destruct Hloop as (_ & Hle & Hok).
    split; [exact Hle |].
    intros E fg bg Hfg Hbg.
    specialize (Hok E).
    rewrite Forall_forall in Hok. specialize (Hok fg Hfg).
    rewrite Forall_forall in Hok. exact (Hok bg Hbg).
  - intros fg vs s s' o _ Hin.
    eapply (for_loop_sound (fun s : Z => s) _ _ _ (fun _ _ => True)
              (fun bg => compose fg 255 bg = fg))
      in Hin; [| | exact visits_grid51 | exact Logic.I].
    + destruct Hin as (_ & Hle & Hok). auto.
    + intros bg vs' t t' o' _ Hb. cbv zeta in Hb.
      destruct (Z.eqb_spec (compose fg 255 bg) fg) as [E | N];
        cbn [negb] in Hb; invert_run.
      * auto with zarith.
      * split; [exact Logic.I |]. split; lia.
Qed.

Lemma property_2_complete (failures : Z) :
  (6 < fuel)%nat -> opacity_on_grid compose ->
  Harness.property_2 bits compose fuel failures =
  Harness.Done failures
    (Harness.format "Property 2: alpha=255 => result = foreground\n" [] ::
     if failures =? 0 then [Harness.format "  PASS\n" []] else []).
Proof.
  intros Hfuel Hok.
  unfold Harness.property_2.
  loop_completes (fun (_ : list Z) (s : Z) => s = failures)
                 (fun fg => In fg grid51) Hloop;
    [ | exact visits_grid51 | exact Hfuel | reflexivity
      | apply Forall_forall; auto | ].
  - intros fg vs s -> Hfg.
    loop_completes (fun (_ : list Z) (s : Z) => s = failures)
                   (fun bg => In bg grid51) Hin;
      [ | exact visits_grid51 | exact Hfuel | reflexivity
        | apply Forall_forall; auto | ].
    + intros bg vs' s -> Hbg.
      rewrite (Hok fg bg Hfg Hbg), Z.eqb_refl.
      exists failures. auto.
    + destruct Hin as [Hin ->]. exists failures. auto.
  - destruct Hloop as [Hloop ->]. rewrite Hloop. cbn.
    destruct (failures =? 0); reflexivity.
Qed.

(** *** Property 3 *)

Lemma In_samples (x : Z) : In x (stride_values 1 256 0) <-> is_sample x.
Proof.
  rewrite In_stride_1. unfold is_sample. lia.
Qed.

Lemma property_3_sound (failures failures' : Z) (out : list string) :
  Harness.property_3 bits compose fuel failures = Harness.Done failures' out ->
  failures <= failures' /\
  (failures' = failures -> range_on_grid compose).
Proof.
  unfold Harness.property_3. intros Hrun. invert_run.
  find_loop Hloop.
  eapply (for_loop_sound (fun s : Z * Z => snd s) _ _ _ (fun _ _ => True)
            (fun fg =>
               Forall (fun alpha =>
                         Forall (fun bg => compose fg alpha bg <= 255) grid17)
                      (stride_values 1 256 0)))
    in Hloop; [| | exact visits_samples | exact Logic.I].
  - destruct Hloop as (_ & Hle & Hok).
    split_state. cbn [snd] in *.
    invert_run.
    split; [exact Hle |].
    intros E fg alpha bg Hfg Halpha Hbg.
    specialize (Hok E).
    rewrite Forall_forall in Hok.
    specialize (Hok fg (proj2 (In_samples fg) Hfg)).
    rewrite Forall_forall in Hok.
    specialize (Hok alpha (proj2 (In_samples alpha) Halpha)).
    rewrite Forall_forall in Hok. exact (Hok bg Hbg).
  - intros fg vs s s' o _ Hmid.
    eapply (for_loop_sound (fun s : Z * Z => snd s) _ _ _ (fun _ _ => True)
              (fun alpha =>
                 Forall (fun bg => compose fg alpha bg <= 255) grid17))
      in Hmid; [| | exact visits_samples | exact Logic.I].
    + destruct Hmid as (_ & Hle & Hok). auto.
    + intros alpha vs' t t' o' _ Hin.
      eapply (for_loop_sound (fun s : Z * Z => snd s) _ _ _ (fun _ _ => True)
                (fun bg => compose fg alpha bg <= 255))
        in Hin; [| | exact visits_grid17 | exact Logic.I].
      * destruct Hin as (_ & Hle & Hok). auto.
      * intros bg vs'' [p f] u' o'' _ Hb. cbv zeta in Hb.
        rewrite Z.gtb_ltb in Hb.
        destruct (Z.ltb_spec 255 (compose fg alpha bg)) as [L | L];
          invert_run; cbn [snd].
        -- split; [exact Logic.I |]. split; lia.
        -- auto with zarith.
Qed.

Lemma property_3_complete (failures : Z) :
  (256 < fuel)%nat -> range_on_grid compose ->
  Harness.property_3 bits compose fuel failures =
  Harness.Done failures
    [Harness.format "Property 3: result always in [0, 255]\n" [];
     Harness.format "  PASS\n" []].
Proof.
  intros Hfuel Hok.
  unfold Harness.property_3.
  loop_completes (fun (_ : list Z) (s : Z * Z) => s = (0, failures))
                 (fun fg => is_sample fg) Hloop;
    [ | exact visits_samples | exact Hfuel | reflexivity
      | apply Forall_forall; intros x; apply In_samples | ].
  - intros fg vs s -> Hfg.
    loop_completes (fun (_ : list Z) (s : Z * Z) => s = (0, failures))
                   (fun alpha => is_sample alpha) Hmid;
      [ | exact visits_samples | exact Hfuel | reflexivity
        | apply Forall_forall; intros x; apply In_samples | ].
    + intros alpha vs' s -> Halpha.
      loop_completes (fun (_ : list Z) (s : Z * Z) => s = (0, failures))
                     (fun bg => In bg grid17) Hin;
        [ | exact visits_grid17 | unfold grid17; cbn [List.length]; lia
          | reflexivity
          | apply Forall_forall; auto | ].
      * intros bg vs'' s -> Hbg.
        rewrite Z.gtb_ltb.
        destruct (Z.ltb_spec 255 (compose fg alpha bg)) as [L | L].
        -- pose proof (Hok fg alpha bg Hfg Halpha Hbg). lia.
        -- exists (0, failures). auto.
      * destruct Hin as [Hin ->]. exists (0, failures). auto.
    + destruct Hmid as [Hmid ->]. exists (0, failures). auto.
  - destruct Hloop as [Hloop ->]. rewrite Hloop. reflexivity.
Qed.

(** *** Property 4 *)

Lemma In_backgrounds (x : Z) : In x (stride_values 1 255 1) <-> 1 <= x <= 255.
Proof.
  rewrite In_stride_1. lia.
Qed.

Lemma tracks_previous_start (fg alpha : Z) :
  tracks_previous compose fg alpha (stride_values 1 255 1) (compose fg alpha 0).
Proof.
  exists 255%nat. split; reflexivity.
Qed.

Lemma tracks_previous_step (fg alpha v : Z) (vs : list Z) (prev_result : Z) :
  tracks_previous compose fg alpha (v :: vs) prev_result ->
  prev_result = compose fg alpha (v - 1) /\
  tracks_previous compose fg alpha vs (compose fg alpha v).
Proof.
  intros (k & Hvs & Hprev).
  destruct k as [| k]; [discriminate |].
  change (v :: vs =
          (256 - Z.of_nat (S k)) ::
          stride_values 1 k (256 - Z.of_nat (S k) + 1)) in Hvs.
  assert (Hv : v = 256 - Z.of_nat (S k)) by congruence.
  assert (Hvs' : vs = stride_values 1 k (256 - Z.of_nat (S k) + 1))
    by congruence.
  clear Hvs. subst v vs prev_result.
  split.
  - f_equal. lia.
  - exists k. split; f_equal; lia.
Qed.

Lemma property_4_sound (failures failures' : Z) (out : list string) :
  Harness.property_4 bits compose fuel failures = Harness.Done failures' out ->
  failures <= failures' /\
  (failures' = failures -> monotone_on_grid compose).
Proof.
  unfold Harness.property_4. intros Hrun. invert_run.
  find_loop Hloop.
  eapply (for_loop_sound (fun s : Z * Z => snd s) _ _ _ (fun _ _ => True)
            (fun fg =>
               Forall (fun alpha =>
                         Forall (fun bg => compose fg alpha (bg - 1) <=
                                           compose fg alpha bg)
                                (stride_values 1 255 1))
                      alpha_grid))
    in Hloop; [| | exact visits_grid51 | exact Logic.I].
  - destruct Hloop as (_ & Hle & Hok).
    split_state. cbn [snd] in *. invert_run.
    split; [exact Hle |].
    intros E fg alpha bg Hfg Halpha Hbg.
    specialize (Hok E).
    rewrite Forall_forall in Hok. specialize (Hok fg Hfg).
    rewrite Forall_forall in Hok. specialize (Hok alpha Halpha).
    rewrite Forall_forall in Hok.
    exact (Hok bg (proj2 (In_backgrounds bg) Hbg)).
  - intros fg vs s s' o _ Hmid.
    eapply (for_loop_sound (fun s : Z * Z => snd s) _ _ _ (fun _ _ => True)
              (fun alpha =>
                 Forall (fun bg => compose fg alpha (bg - 1) <=
                                   compose fg alpha bg)
                        (stride_values 1 255 1)))
      in Hmid; [| | exact visits_alpha_grid | exact Logic.I].
    + destruct Hmid as (_ & Hle & Hok). auto.
    + intros alpha vs' [p f] t' o' _ Hb. cbv zeta in Hb.
      invert_run. find_loop Hin.
      eapply (for_loop_sound (fun s : Z * Z * Z => snd s) _ _ _
                (fun vs s => tracks_previous compose fg alpha vs (fst (fst s)))
                (fun bg => compose fg alpha (bg - 1) <= compose fg alpha bg))
        in Hin; [| | exact visits_backgrounds
                 | exact (tracks_previous_start fg alpha)].
      * destruct Hin as (_ & Hle & Hok).
        split_state. cbn [snd] in *. invert_run. cbn [snd]. auto.
      * intros bg vs'' [[prev p'] f'] u' o'' Htrack Hbody.
        cbn [fst snd] in *.
        apply tracks_previous_step in Htrack as [-> Htrack].
        destruct (Z.ltb_spec (compose fg alpha bg) (compose fg alpha (bg - 1)))
          as [L | L]; invert_run; cbn [fst snd].
        -- split; [exact Htrack |]. split; lia.
        -- split; [exact Htrack |]. split; [lia | auto].
Qed.

Lemma property_4_complete (failures : Z) :
  (255 < fuel)%nat -> monotone_on_grid compose ->
  Harness.property_4 bits compose fuel failures =
  Harness.Done failures
    [Harness.format "Property 4: monotonic in background\n" [];
     Harness.format "  PASS\n" []].
Proof.
  intros Hfuel Hok.
  unfold Harness.property_4.
  loop_completes (fun (_ : list Z) (s : Z * Z) => s = (0, failures))
                 (fun fg => In fg grid51) Hloop;
    [ | exact visits_grid51 | unfold grid51; cbn [List.length]; lia
      | reflexivity | apply Forall_forall; auto | ].
  - intros fg vs s -> Hfg.
    loop_completes (fun (_ : list Z) (s : Z * Z) => s = (0, failures))
                   (fun alpha => In alpha alpha_grid) Hmid;
      [ | exact visits_alpha_grid
        | unfold alpha_grid; cbn [List.length]; lia
        | reflexivity | apply Forall_forall; auto | ].
    + intros alpha vs' s -> Halpha.
      loop_completes
        (fun (vs : list Z) (s : Z * Z * Z) =>
           tracks_previous compose fg alpha vs (fst (fst s)) /\
           snd (fst s) = 0 /\ snd s = failures)
        (fun bg => 1 <= bg <= 255) Hin;
        [ | exact visits_backgrounds | exact Hfuel
          | split; [exact (tracks_previous_start fg alpha) | split; reflexivity]
          | apply Forall_forall; intros x; apply In_backgrounds | ].
      * intros bg vs'' [[prev p] f] (Htrack & Hp & Hf) Hbg.
        cbn [fst snd] in *. subst p f.
        apply tracks_previous_step in Htrack as [-> Htrack].
        pose proof (Hok fg alpha bg Hfg Halpha Hbg) as Hmono.
        destruct (Z.ltb_spec (compose fg alpha bg) (compose fg alpha (bg - 1)))
          as [L | L]; [lia |].
        exists (compose fg alpha bg, 0, failures). cbn [fst snd]. auto.
      * destruct Hin as (Hin & _ & Hp & Hf).
        destruct s as [[prev p] f]. cbn [fst snd] in *. subst p f.
        exists (0, failures). rewrite Hin. auto.
    + destruct Hmid as [Hmid ->]. exists (0, failures). auto.
  - destruct Hloop as [Hloop ->]. rewrite Hloop. reflexivity.
Qed.

End Sweeps.

(** ** The first batch *)

Section Run_tests_facts.

Variable bits : Z.

Variable compose : Z -> Z -> Z -> Z.

Hypothesis bits_ge_16 : 16 <= bits.

(** The loop adds to the counter the number of vectors that fail, as long
    as the counter has room for one failure by vector. *)
Lemma run_tests_from_count (ts : list test_vector) :
  forall i failures,
    0 <= failures ->
    failures + Z.of_nat (List.length ts) <= Harness.INT_MAX bits ->
    exists out,
      Harness.run_tests_from bits compose i ts failures =
      Harness.Done
        (failures + Z.of_nat (List.length (filter (vector_fails compose) ts)))
        out.
Proof.
  induction ts as [| t ts IH]; intros i failures H0 Hmax.
  - exists []. cbn. rewrite Z.add_0_r. reflexivity.
  - cbn [List.length] in Hmax.
    cbn [Harness.run_tests_from filter]. cbv zeta.
    unfold vector_fails at 1.
    destruct (negb (compose (fg t) (alpha t) (bg t) =? expected t)).
    + pose proof (INT_MIN_le_0 bits) as Hmin.
      rewrite (int_add_in_range bits failures 1) by lia.
      destruct (IH (i + 1) (failures + 1) ltac:(lia) ltac:(lia)) as [out Hout].
      eexists. cbn [Harness.bind Harness.printf]. rewrite Hout.
      apply f_equal2; [cbn [List.length]; lia | reflexivity].
    + destruct (IH (i + 1) failures H0 ltac:(lia)) as [out Hout].
      eexists. cbn [Harness.bind Harness.printf Harness.ret]. rewrite Hout.
      reflexivity.
Qed.

Lemma filter_length_le {A : Type} (p : A -> bool) (l : list A) :
  (List.length (filter p l) <= List.length l)%nat.
Proof.
  induction l as [| x l IH]; cbn; [lia |].
  destruct (p x); cbn; lia.
Qed.

Lemma no_vector_fails (ts : list test_vector) :
  filter (vector_fails compose) ts = [] <->
  Forall (fun t => compose (fg t) (alpha t) (bg t) = expected t) ts.
Proof.
  induction ts as [| t ts IH]; cbn [filter].
  - split; [constructor | reflexivity].
  - unfold vector_fails at 1.
    destruct (Z.eqb_spec (compose (fg t) (alpha t) (bg t)) (expected t))
      as [E | N]; cbn [negb].
    + rewrite IH. split; [constructor; assumption |].
      intros H. inversion H; assumption.
    + split; [discriminate |].
      intros H. inversion H; contradiction.
Qed.

(** [run_tests] ends with the number of failing vectors. *)
Lemma run_tests_count :
  exists out,
    Harness.run_tests bits compose =
    Harness.Done
      (Z.of_nat (List.length (filter (vector_fails compose) tests))) out /\
    (List.length (filter (vector_fails compose) tests) <= 24)%nat /\
    (List.length (filter (vector_fails compose) tests) = 0%nat <->
     vectors_pass compose).
Proof.
  pose proof (INT_MAX_ge_32767 bits bits_ge_16) as Hmax.
  destruct (run_tests_from_count tests 0 0 (Z.le_refl 0)) as [out Hout].
  { change (List.length tests) with 24%nat. lia. }
  rewrite Z.add_0_l in Hout.
  assert (Hrun : exists out',
             Harness.run_tests bits compose =
             Harness.Done
               (Z.of_nat (List.length (filter (vector_fails compose) tests)))
               out').
  { unfold Harness.run_tests. cbv zeta.
    rewrite Hout. cbn [Harness.bind Harness.printf Harness.ret].
    destruct (_ =? 0); cbn [Harness.bind Harness.printf Harness.ret];
      eexists; reflexivity. }
  destruct Hrun as [out' Hrun].
  exists out'. split; [exact Hrun | split].
  - exact (filter_length_le (vector_fails compose) tests).
  - rewrite List.length_zero_iff_nil. apply no_vector_fails.
Qed.

(** X12: whatever the compositor, [run_tests] ends, and its value is the
    number of vectors of the table whose expected value the compositor does
    not return: at most 24, and 0 exactly when every vector passes. *)
Theorem run_tests_counts_failures :
  exists out,
    Harness.run_tests bits compose =
    Harness.Done
      (Z.of_nat (List.length (filter (vector_fails compose) tests))) out /\
    (List.length (filter (vector_fails compose) tests) <= 24)%nat /\
    (List.length (filter (vector_fails compose) tests) = 0%nat <->
     vectors_pass compose).
Proof.
  exact run_tests_count.
Qed.

(** Where every vector passes, the loop prints one PASS line by vector and
    leaves the counter as it is. *)
Lemma run_tests_from_pass (ts : list test_vector) :
  Forall (fun t => compose (fg t) (alpha t) (bg t) = expected t) ts ->
  forall i failures,
    Harness.run_tests_from bits compose i ts failures =
    Harness.Done failures (pass_lines i ts).
Proof.
  induction 1 as [| t ts Ht _ IH]; intros i failures.
  - reflexivity.
  - cbn [Harness.run_tests_from pass_lines]. cbv zeta.
    rewrite Ht, Z.eqb_refl. cbn [negb].
    cbn [Harness.bind Harness.printf Harness.ret].
    rewrite IH. reflexivity.
Qed.

End Run_tests_facts.

(** ** The second batch *)

Section Verify_facts.

Variable bits : Z.

Variable compose : Z -> Z -> Z -> Z.

Variable fuel : nat.

Hypothesis bits_ge_16 : 16 <= bits.

Lemma verify_sound (n : Z) (out : list string) :
  Harness.verify_formula_properties bits compose fuel = Harness.Done n out ->
  0 <= n /\ (n = 0 -> holds_on_grids compose).
Proof.
  unfold Harness.verify_formula_properties. cbv zeta. intros Hrun.
  apply bind_Done in Hrun as (? & ? & ? & _ & Hrun & _).
  apply bind_Done in Hrun as (f1 & ? & ? & H1 & Hrun & _).
  apply bind_Done in Hrun as (f2 & ? & ? & H2 & Hrun & _).
  apply bind_Done in Hrun as (f3 & ? & ? & H3 & Hrun & _).
  apply bind_Done in Hrun as (f4 & ? & ? & H4 & Hrun & _).
  apply bind_Done in Hrun as (? & ? & ? & _ & Hrun & _).
  apply bind_Done in Hrun as (? & ? & ? & _ & Hrun & _).
  unfold Harness.ret in Hrun. injection Hrun as <- _.
  apply (property_1_sound bits compose fuel bits_ge_16) in H1 as [L1 P1].
  apply (property_2_sound bits compose fuel bits_ge_16) in H2 as [L2 P2].
  apply (property_3_sound bits compose fuel bits_ge_16) in H3 as [L3 P3].
  apply (property_4_sound bits compose fuel bits_ge_16) in H4 as [L4 P4].
  split; [lia |].
  intros E. unfold holds_on_grids.
  repeat split; [apply P1 | apply P2 | apply P3 | apply P4]; lia.
Qed.

Lemma verify_complete :
  (256 < fuel)%nat -> holds_on_grids compose ->
  Harness.verify_formula_properties bits compose fuel =
  Harness.Done 0 verify_transcript.
Proof.
  intros Hfuel (P1 & P2 & P3 & P4).
  unfold Harness.verify_formula_properties. cbv zeta.
  rewrite (property_1_complete bits compose fuel bits_ge_16 0)
    by (lia || assumption).
  cbn [Harness.bind Harness.printf Harness.ret].
  rewrite (property_2_complete bits compose fuel bits_ge_16 0)
    by (lia || assumption).
  cbn [Harness.bind Harness.printf Harness.ret].
  rewrite (property_3_complete bits compose fuel bits_ge_16 0)
    by (lia || assumption).
  cbn [Harness.bind Harness.printf Harness.ret].
  rewrite (property_4_complete bits compose fuel bits_ge_16 0)
    by (lia || assumption).
  cbn [Harness.bind Harness.printf Harness.ret].
  reflexivity.
Qed.

(** X13: given the fuel for 256 turns of a loop, the second batch returns 0
    exactly when the compositor has the four properties at every value the
    sweeps visit, and it then prints the four PASS lines; whenever it
    returns, its count is not negative. *)
Theorem verify_formula_properties_zero_iff :
  (256 < fuel)%nat ->
  (holds_on_grids compose ->
   Harness.verify_formula_properties bits compose fuel =
   Harness.Done 0 verify_transcript) /\
  (forall n out,
      Harness.verify_formula_properties bits compose fuel =
      Harness.Done n out ->
      0 <= n /\ (n = 0 -> holds_on_grids compose)).
Proof.
  intros Hfuel. split.
  - exact (verify_complete Hfuel).
  - exact verify_sound.
Qed.

End Verify_facts.

(** ** The whole run *)

Section Main_facts.

Variable bits : Z.

Variable compose : Z -> Z -> Z -> Z.

Variable fuel : nat.

Hypothesis bits_ge_16 : 16 <= bits.

Lemma run_tests_pass :
  vectors_pass compose ->
  Harness.run_tests bits compose = Harness.Done 0 run_tests_transcript.
Proof.
  intros Hpass.
  unfold Harness.run_tests. cbv zeta.
  rewrite (run_tests_from_pass bits compose tests Hpass).
  reflexivity.
Qed.

Lemma int_add_small (x y : Z) :
  0 <= x + y <= 32767 ->
  Harness.int_add bits x y = Harness.Done (x + y) [].
Proof.
  intros H. apply int_add_in_range.
  pose proof (INT_MAX_ge_32767 bits bits_ge_16).
  pose proof (INT_MIN_le_0 bits). lia.
Qed.

Lemma main_complete :
  (256 < fuel)%nat -> vectors_pass compose -> holds_on_grids compose ->
  Harness.main bits compose fuel = Harness.Done 0 main_transcript.
Proof.
  intros Hfuel Hpass Hgrids.
  unfold Harness.main. cbv zeta.
  rewrite (run_tests_pass Hpass).
  rewrite (verify_complete bits compose fuel bits_ge_16 Hfuel Hgrids).
  cbn [Harness.bind Harness.printf Harness.ret].
  rewrite (int_add_small 0 0) by lia.
  cbn [Harness.bind Harness.printf Harness.ret Z.add].
  rewrite (int_add_small 0 0) by lia.
  reflexivity.
Qed.

Lemma main_sound (status : Z) (out : list string) :
  Harness.main bits compose fuel = Harness.Done status out ->
  (status = 0 \/ status = 1) /\
  (status = 0 -> vectors_pass compose /\ holds_on_grids compose).
Proof.
  unfold Harness.main. cbv zeta. intros Hrun.
  apply bind_Done in Hrun as (? & ? & ? & _ & Hrun & _).
  apply bind_Done in Hrun as (? & ? & ? & _ & Hrun & _).
  apply bind_Done in Hrun as (n1 & ? & ? & H1 & Hrun & _).
  apply bind_Done in Hrun as (f1 & ? & ? & A1 & Hrun & _).
  apply bind_Done in Hrun as (? & ? & ? & _ & Hrun & _).
  apply bind_Done in Hrun as (n2 & ? & ? & H2 & Hrun & _).
  apply bind_Done in Hrun as (f2 & ? & ? & A2 & Hrun & _).
  apply bind_Done in Hrun as (? & ? & ? & _ & Hrun & _).
  apply int_add_Done in A1 as [-> _].
  apply int_add_Done in A2 as [-> _].
  destruct (run_tests_count bits compose bits_ge_16)
    as (o & Hcount & _ & Hzero).
  remember (List.length (filter (vector_fails compose) tests)) as c eqn:Ec.
  clear Ec.
  assert (En1 : n1 = Z.of_nat c) by congruence.
  subst n1. clear Hcount H1.
  apply (verify_sound bits compose fuel bits_ge_16) in H2 as [Hn2 Hgrids].
  destruct (Z.eqb_spec (0 + Z.of_nat c + n2) 0) as [E | N]; invert_run.
  - split; [left; reflexivity |].
    intros _. split.
    + apply Hzero. lia.
    + apply Hgrids. lia.
  - split; [right; reflexivity |]. discriminate.
Qed.

(** X14: the exit status.  Given the fuel for 256 turns of a loop, [main]
    returns 0, after the lines of a run without failure, when the compositor
    passes every vector and has the four properties on the grids; and
    whenever [main] returns, its value is 0 or 1, and 0 only if the
    compositor passes every vector and has the four properties on the
    grids. *)
Theorem main_exit_status :
  (256 < fuel)%nat ->
  (vectors_pass compose -> holds_on_grids compose ->
   Harness.main bits compose fuel = Harness.Done 0 main_transcript) /\
  (forall status out,
      Harness.main bits compose fuel = Harness.Done status out ->
      (status = 0 \/ status = 1) /\
      (status = 0 -> vectors_pass compose /\ holds_on_grids compose)).
Proof.
  intros Hfuel. split.
  - exact (main_complete Hfuel).
  - exact main_sound.
Qed.

End Main_facts.

(** ** The program at its own compositor *)

Lemma grid51_samples (x : Z) : In x grid51 -> is_sample x.
Proof.
  unfold grid51, is_sample. cbn [In]. lia.
Qed.

Lemma grid17_samples (x : Z) : In x grid17 -> is_sample x.
Proof.
  unfold grid17, is_sample. cbn [In]. lia.
Qed.

Lemma alpha_grid_partial (x : Z) : In x alpha_grid -> 1 <= x <= 254.
Proof.
  unfold alpha_grid. cbn [In]. lia.
Qed.

Lemma vectors_pass_at_16 : vectors_pass (srgb_compose 16).
Proof.
  unfold vectors_pass, tests.
  repeat (constructor; [reflexivity |]).
  constructor.
Qed.

Section Program_facts.

Variable bits : Z.

Hypothesis bits_ge_16 : 16 <= bits.

Lemma vectors_pass_srgb_compose : vectors_pass (srgb_compose bits).
Proof.
  unfold vectors_pass.
  pose proof vectors_pass_at_16 as H16. unfold vectors_pass in H16.
  pose proof tests_are_samples as Hs.
  induction Hs as [| t ts (Hf & Ha & Hb & _) _ IH].
  - constructor.
  - inversion H16 as [| ? ? Ht Hts]; subst.
    constructor; [| exact (IH Hts)].
    rewrite (srgb_compose_any_width bits bits_ge_16 _ _ _ Hf Ha Hb).
    exact Ht.
Qed.

Lemma holds_on_grids_srgb_compose : holds_on_grids (srgb_compose bits).
Proof.
  split; [| split; [| split]].
  - intros fg bg _ _. reflexivity.
  - intros fg bg Hfg Hbg.
    pose proof (grid51_samples _ Hfg). pose proof (grid51_samples _ Hbg).
    rewrite (srgb_compose_on_samples bits bits_ge_16 fg 255 bg)
      by (assumption || (unfold is_sample; lia)).
    rewrite share_at_opaque by assumption.
    unfold is_sample in *. cbn [Z.eqb]. lia.
  - intros fg alpha bg Hfg Halpha Hbg.
    pose proof (grid17_samples _ Hbg).
    rewrite (srgb_compose_on_samples bits bits_ge_16 fg alpha bg)
      by assumption.
    unfold is_sample in *. destruct (alpha =? 0); lia.
  - intros fg alpha bg Hfg Halpha Hbg.
    pose proof (grid51_samples _ Hfg) as Sfg.
    pose proof (alpha_grid_partial _ Halpha) as Pa.
    assert (Sa : is_sample alpha) by (unfold is_sample; lia).
    assert (Sb : is_sample bg) by (unfold is_sample; lia).
    assert (Sb' : is_sample (bg - 1)) by (unfold is_sample; lia).
    rewrite (srgb_compose_on_samples bits bits_ge_16 fg alpha bg Sfg Sa Sb).
    rewrite (srgb_compose_on_samples bits bits_ge_16 fg alpha (bg - 1)
               Sfg Sa Sb').
    destruct (Z.eqb_spec alpha 0); [lia |].
    pose proof (share_monotone alpha (bg - 1) bg Pa ltac:(lia)).
    lia.
Qed.

(** X15: on every [unsigned int] of at least 16 bits, and given the fuel for
    256 turns of a loop, the program passes: [run_tests] returns 0 after one
    PASS line by vector, [verify_formula_properties] returns 0 after the
    four PASS lines, and [main] exits with status 0 after the SUCCESS
    line.  The count of the first batch is the one of [run_tests] taken
    without its output. *)
Theorem program_passes (fuel : nat) :
  (256 < fuel)%nat ->
  Harness.run_tests bits (srgb_compose bits) =
    Harness.Done (run_tests bits) run_tests_transcript /\
  verify_formula_properties bits fuel = Harness.Done 0 verify_transcript /\
  main bits fuel = Harness.Done 0 main_transcript.
Proof.
  intros Hfuel.
  pose proof vectors_pass_srgb_compose as Hpass.
  pose proof holds_on_grids_srgb_compose as Hgrids.
  repeat split.
  - rewrite (run_tests_no_failure bits bits_ge_16).
    exact (run_tests_pass bits (srgb_compose bits) Hpass).
  - exact (verify_complete bits (srgb_compose bits) fuel bits_ge_16
             Hfuel Hgrids).
  - exact (main_complete bits (srgb_compose bits) fuel bits_ge_16
             Hfuel Hpass Hgrids).
Qed.

End Program_facts.

(** ** The PASS lines *)

(** X16: the PASS line of property 2 is decided by the counter of the whole
    batch, the one of property 3 by its own counter.  Entered with a counter
    other than 0, property 2 prints no PASS line even where its sweep finds
    nothing, while property 3 prints its PASS line. *)
Theorem pass_line_after_earlier_failure
        (bits : Z) (compose : Z -> Z -> Z -> Z) (fuel : nat) (failures : Z) :
  16 <= bits -> (256 < fuel)%nat -> failures <> 0 ->
  opacity_on_grid compose -> range_on_grid compose ->
  Harness.property_2 bits compose fuel failures =
    Harness.Done failures
      [Harness.format "Property 2: alpha=255 => result = foreground\n" []] /\
  Harness.property_3 bits compose fuel failures =
    Harness.Done failures
      [Harness.format "Property 3: result always in [0, 255]\n" [];
       Harness.format "  PASS\n" []].
Proof.
  intros Hbits Hfuel Hne H2 H3. split.
  - rewrite (property_2_complete bits compose fuel Hbits failures)
      by (lia || assumption).
    destruct (Z.eqb_spec failures 0); [contradiction | reflexivity].
  - exact (property_3_complete bits compose fuel Hbits failures Hfuel H3).
Qed.

(** ** No overflow of the counters on an [int] of 22 bits *)

Section Loop_total.

Context {S : Type}.

Variable fails : S -> Z.
Variable cond : Z -> bool.
Variable next : Z -> Z.
Variable body : Z -> S -> Harness.outcome S.

(** What the states keep. *)
Variable I : S -> Prop.

(** The most that one turn adds to the counter, and the room it has. *)
Variable c cap : Z.

Lemma for_loop_total :
  0 <= c ->
  (forall v s,
      I s -> fails s + c <= cap ->
      exists s' out,
        body v s = Harness.Done s' out /\ I s' /\ fails s' <= fails s + c) ->
  forall vs fuel i s,
    visits cond next i vs -> (List.length vs < fuel)%nat ->
    I s -> fails s + c * Z.of_nat (List.length vs) <= cap ->
    exists s' out,
      Harness.for_loop cond next body fuel i s = Harness.Done s' out /\
      I s' /\ fails s' <= fails s + c * Z.of_nat (List.length vs).
Proof.
  intros Hc Hbody.
  induction vs as [| v vs IH]; intros fuel i s Hv Hfuel HI Hcap.
  - destruct fuel as [| fuel]; [cbn in Hfuel; lia |].
    cbn in Hv |- *. rewrite Hv. exists s, []. repeat split; [assumption | lia].
  - destruct fuel as [| fuel]; [cbn in Hfuel; lia |].
    cbn in Hv. destruct Hv as (-> & Hcond & Hv).
    cbn [List.length] in Hcap, Hfuel |- *.
    destruct (Hbody i s HI ltac:(nia)) as (s1 & o1 & Hb & HI1 & Hle1).
    destruct (IH fuel _ s1 Hv ltac:(lia) HI1 ltac:(nia))
      as (s' & o' & Hrest & HI' & Hle').
    exists s', (o1 ++ o').
    split; [| split; [assumption | nia]].
    cbn. rewrite Hcond.
    exact (bind_Done_intro _ _ _ _ _ _ Hb Hrest).
Qed.

End Loop_total.

(** Runs the first loop of the goal to its end by [for_loop_total]. *)
Ltac loop_total fails I c cap name :=
  match goal with
  | |- context [Harness.for_loop ?cd ?n ?b ?f0 ?i0 ?s0] =>
      let s' := fresh "s" in
      let o' := fresh "o" in
      edestruct (for_loop_total fails cd n b I c cap)
        with (fuel := f0) (i := i0) (s := s0) as (s' & o' & name)
  end.

Section Totals.

Variable bits : Z.

Variable compose : Z -> Z -> Z -> Z.

Variable fuel : nat.

Hypothesis bits_ge_16 : 16 <= bits.

Hypothesis enough_fuel : (256 < fuel)%nat.

Lemma incr_total (x : Z) :
  0 <= x -> x + 1 <= Harness.INT_MAX bits ->
  Harness.int_add bits x 1 = Harness.Done (x + 1) [].
Proof.
  intros H0 H1. apply int_add_in_range.
  pose proof (INT_MIN_le_0 bits). lia.
Qed.

Lemma property_1_total (failures : Z) :
  0 <= failures -> failures + 36 <= Harness.INT_MAX bits ->
  exists failures' out,
    Harness.property_1 bits compose fuel failures =
    Harness.Done failures' out /\
    0 <= failures' <= failures + 36.
Proof.
  intros H0 Hcap. unfold Harness.property_1.
  loop_total (fun s : Z => s) (fun s : Z => failures <= s) 6
             (Harness.INT_MAX bits) Hloop;
    [ lia | | exact (visits_grid51 bits bits_ge_16)
      | unfold grid51; cbn [List.length]; lia | lia
      | unfold grid51; cbn [List.length]; lia | ].
  - intros bg s Hs Hroom.
    loop_total (fun s : Z => s) (fun t : Z => s <= t) 1
               (Harness.INT_MAX bits) Hin;
      [ lia | | exact (visits_grid51 bits bits_ge_16)
        | unfold grid51; cbn [List.length]; lia | lia
        | unfold grid51; cbn [List.length]; lia | ].
    + intros fg t Ht Hroom'.
      destruct (negb (compose fg 0 bg =? bg)).
      * rewrite incr_total by lia.
        eexists _, _. split; [reflexivity | lia].
      * eexists _, _. split; [reflexivity | lia].
    + destruct Hin as (Hin & Hge & Hle).
      unfold grid51 in Hle. cbn [List.length] in Hle.
      eexists _, _. split; [exact Hin | lia].
  - destruct Hloop as (Hloop & Hge & Hle).
    unfold grid51 in Hle. cbn [List.length] in Hle.
    rewrite Hloop. cbn [Harness.bind Harness.printf Harness.ret].
    destruct (s =? 0); cbn [Harness.bind Harness.printf Harness.ret];
      eexists _, _; (split; [reflexivity | lia]).
Qed.

Lemma property_2_total (failures : Z) :
  0 <= failures -> failures + 36 <= Harness.INT_MAX bits ->
  exists failures' out,
    Harness.property_2 bits compose fuel failures =
    Harness.Done failures' out /\
    0 <= failures' <= failures + 36.
Proof.
  intros H0 Hcap. unfold Harness.property_2.
  loop_total (fun s : Z => s) (fun s : Z => failures <= s) 6
             (Harness.INT_MAX bits) Hloop;
    [ lia | | exact (visits_grid51 bits bits_ge_16)
      | unfold grid51; cbn [List.length]; lia | lia
      | unfold grid51; cbn [List.length]; lia | ].
  - intros fg s Hs Hroom.
    loop_total (fun s : Z => s) (fun t : Z => s <= t) 1
               (Harness.INT_MAX bits) Hin;
      [ lia | | exact (visits_grid51 bits bits_ge_16)
        | unfold grid51; cbn [List.length]; lia | lia
        | unfold grid51; cbn [List.length]; lia | ].
    + intros bg t Ht Hroom'.
      destruct (negb (compose fg 255 bg =? fg)).
      * rewrite incr_total by lia.
        eexists _, _. split; [reflexivity | lia].
      * eexists _, _. split; [reflexivity | lia].
    + destruct Hin as (Hin & Hge & Hle).
      unfold grid51 in Hle. cbn [List.length] in Hle.
      eexists _, _. split; [exact Hin | lia].
  - destruct Hloop as (Hloop & Hge & Hle).
    unfold grid51 in Hle. cbn [List.length] in Hle.
    rewrite Hloop. cbn [Harness.bind Harness.printf Harness.ret].
    destruct (s =? 0); cbn [Harness.bind Harness.printf Harness.ret];
      eexists _, _; (split; [reflexivity | lia]).
Qed.

Lemma length_stride_values (step : Z) (n : nat) :
  forall start, List.length (stride_values step n start) = n.
Proof.
  induction n as [| n IH]; intros start; cbn; [reflexivity |].
  rewrite IH. reflexivity.
Qed.

Lemma property_3_total (failures : Z) :
  0 <= failures -> failures + 1048576 <= Harness.INT_MAX bits ->
  exists failures' out,
    Harness.property_3 bits compose fuel failures =
    Harness.Done failures' out /\
    0 <= failures' <= failures + 1048576.
Proof.
  intros H0 Hcap. unfold Harness.property_3.
  loop_total (fun s : Z * Z => snd s) (fun s : Z * Z => 0 <= fst s <= snd s)
             4096 (Harness.INT_MAX bits) Hloop;
    [ lia | | exact (visits_samples bits bits_ge_16)
      | rewrite length_stride_values; exact enough_fuel
      | cbn [fst snd]; lia
      | rewrite length_stride_values; cbn [fst snd]; lia | ].
  - intros fg s Hs Hroom.
    loop_total (fun s : Z * Z => snd s) (fun s : Z * Z => 0 <= fst s <= snd s)
               16 (Harness.INT_MAX bits) Hmid;
      [ lia | | exact (visits_samples bits bits_ge_16)
        | rewrite length_stride_values; exact enough_fuel
        | exact Hs
        | rewrite length_stride_values; lia | ].
    + intros alpha t Ht Hroom'.
      loop_total (fun s : Z * Z => snd s)
                 (fun s : Z * Z => 0 <= fst s <= snd s)
                 1 (Harness.INT_MAX bits) Hin;
        [ lia | | exact (visits_grid17 bits bits_ge_16)
          | unfold grid17; cbn [List.length]; lia
          | exact Ht
          | unfold grid17; cbn [List.length]; lia | ].
      * intros bg [p f] Hu Hroom''. cbn [fst snd] in *.
        destruct (compose fg alpha bg >? 255).
        -- cbn [Harness.bind Harness.printf].
           rewrite (incr_total p) by lia.
           cbn [Harness.bind].
           rewrite (incr_total f) by lia.
           eexists _, _. split; [reflexivity | cbn [fst snd]; lia].
        -- eexists _, _. split; [reflexivity | cbn [fst snd]; lia].
      * destruct Hin as (Hin & HI & Hle).
        unfold grid17 in Hle. cbn [List.length] in Hle.
        eexists _, _. split; [exact Hin | split; [exact HI | lia]].
    + destruct Hmid as (Hmid & HI & Hle).
      rewrite length_stride_values in Hle.
      eexists _, _. split; [exact Hmid | split; [exact HI | lia]].
  - destruct Hloop as (Hloop & HI & Hle).
    rewrite length_stride_values in Hle.
    destruct s as [p f]. cbn [fst snd] in *.
    rewrite Hloop. cbn [Harness.bind Harness.printf Harness.ret].
    destruct (p =? 0); cbn [Harness.bind Harness.printf Harness.ret];
      eexists _, _; (split; [reflexivity | lia]).
Qed.

Lemma property_4_total (failures : Z) :
  0 <= failures -> failures + 7650 <= Harness.INT_MAX bits ->
  exists failures' out,
    Harness.property_4 bits compose fuel failures =
    Harness.Done failures' out /\
    0 <= failures' <= failures + 7650.
Proof.
  intros H0 Hcap. unfold Harness.property_4.
  loop_total (fun s : Z * Z => snd s) (fun s : Z * Z => 0 <= fst s <= snd s)
             1275 (Harness.INT_MAX bits) Hloop;
    [ lia | | exact (visits_grid51 bits bits_ge_16)
      | unfold grid51; cbn [List.length]; lia
      | cbn [fst snd]; lia
      | unfold grid51; cbn [List.length fst snd]; lia | ].
  - intros fg s Hs Hroom.
    loop_total (fun s : Z * Z => snd s) (fun s : Z * Z => 0 <= fst s <= snd s)
               255 (Harness.INT_MAX bits) Hmid;
      [ lia | | exact (visits_alpha_grid bits bits_ge_16)
        | unfold alpha_grid; cbn [List.length]; lia
        | exact Hs
        | unfold alpha_grid; cbn [List.length]; lia | ].
    + intros alpha [p f] Ht Hroom'. cbn [fst snd] in *.
      loop_total (fun s : Z * Z * Z => snd s)
                 (fun s : Z * Z * Z => 0 <= snd (fst s) <= snd s)
                 1 (Harness.INT_MAX bits) Hin;
        [ lia | | exact (visits_backgrounds bits bits_ge_16)
          | rewrite length_stride_values; lia
          | cbn [fst snd]; exact Ht
          | rewrite length_stride_values; cbn [fst snd]; lia | ].
      * intros bg [[prev p'] f'] Hu Hroom''. cbn [fst snd] in *.
        destruct (compose fg alpha bg <? prev).
        -- cbn [Harness.bind Harness.printf].
           rewrite (incr_total p') by lia.
           cbn [Harness.bind].
           rewrite (incr_total f') by lia.
           eexists _, _. split; [reflexivity | cbn [fst snd]; lia].
        -- eexists _, _. split; [reflexivity | cbn [fst snd]; lia].
      * destruct Hin as (Hin & HI & Hle).
        rewrite length_stride_values in Hle.
        destruct s0 as [[prev p'] f']. cbn [fst snd] in *.
        rewrite Hin. cbn [Harness.bind Harness.ret].
        eexists _, _. split; [reflexivity | cbn [fst snd]; lia].
    + destruct Hmid as (Hmid & HI & Hle).
      unfold alpha_grid in Hle. cbn [List.length] in Hle.
      eexists _, _. split; [exact Hmid | split; [exact HI | lia]].
  - destruct Hloop as (Hloop & HI & Hle).
    unfold grid51 in Hle. cbn [List.length] in Hle.
    destruct s as [p f]. cbn [fst snd] in *.
    rewrite Hloop. cbn [Harness.bind Harness.printf Harness.ret].
    destruct (p =? 0); cbn [Harness.bind Harness.printf Harness.ret];
      eexists _, _; (split; [reflexivity | lia]).
Qed.

Lemma verify_total :
  1056298 <= Harness.INT_MAX bits ->
  exists n out,
    Harness.verify_formula_properties bits compose fuel = Harness.Done n out /\
    0 <= n <= 1056298.
Proof.
  intros Hcap. unfold Harness.verify_formula_properties. cbv zeta.
  destruct (property_1_total 0) as (f1 & o1 & E1 & B1); [lia | lia |].
  destruct (property_2_total f1) as (f2 & o2 & E2 & B2); [lia | lia |].
  destruct (property_3_total f2) as (f3 & o3 & E3 & B3); [lia | lia |].
  destruct (property_4_total f3) as (f4 & o4 & E4 & B4); [lia | lia |].
  cbn [Harness.bind Harness.printf]. rewrite E1.
  cbn [Harness.bind]. rewrite E2.
  cbn [Harness.bind]. rewrite E3.
  cbn [Harness.bind]. rewrite E4.
  cbn [Harness.bind Harness.printf Harness.ret].
  destruct (f4 =? 0); cbn [Harness.bind Harness.printf Harness.ret];
    eexists _, _; (split; [reflexivity | lia]).
Qed.

Lemma main_total :
  1056322 <= Harness.INT_MAX bits ->
  exists status out,
    Harness.main bits compose fuel = Harness.Done status out.
Proof.
  intros Hcap. unfold Harness.main. cbv zeta.
  destruct (run_tests_count bits compose bits_ge_16)
    as (o1 & E1 & Hle & _).
  remember (List.length (filter (vector_fails compose) tests)) as c eqn:Ec.
  clear Ec.
  destruct verify_total as (n2 & o2 & E2 & B2); [lia |].
  pose proof (INT_MIN_le_0 bits) as Hmin.
  cbn [Harness.bind Harness.printf]. rewrite E1.
  cbn [Harness.bind].
  rewrite (int_add_in_range bits 0 (Z.of_nat c)) by lia.
  cbn [Harness.bind Harness.printf]. rewrite E2.
  cbn [Harness.bind].
  rewrite (int_add_in_range bits (0 + Z.of_nat c) n2) by lia.
  cbn [Harness.bind Harness.printf].
  destruct (0 + Z.of_nat c + n2 =? 0);
    cbn [Harness.bind Harness.printf Harness.ret];
    eexists _, _; reflexivity.
Qed.

End Totals.

Lemma INT_MAX_ge_2097151 (bits : Z) :
  22 <= bits -> 2097151 <= Harness.INT_MAX bits.
Proof.
  intros H. unfold Harness.INT_MAX.
  assert (2 ^ 21 <= 2 ^ (bits - 1)) by (apply Z.pow_le_mono_r; lia).
  change (2 ^ 21) with 2097152 in *. lia.
Qed.

(** X17: where [int] has at least 22 bits, the program ends for every
    compositor: given the fuel for 256 turns of a loop no counter leaves the
    range of [int], since the sweeps count at most 1056298 violations and
    the table 24 failures, and [main] returns 0 or 1. *)
Theorem main_total_on_22_bits
        (bits : Z) (compose : Z -> Z -> Z -> Z) (fuel : nat) :
  22 <= bits -> (256 < fuel)%nat ->
  (exists n out,
      Harness.verify_formula_properties bits compose fuel =
      Harness.Done n out /\ 0 <= n <= 1056298) /\
  (exists status out,
      Harness.main bits compose fuel = Harness.Done status out /\
      (status = 0 \/ status = 1)).
Proof.
  intros Hbits Hfuel.
  assert (H16 : 16 <= bits) by lia.
  pose proof (INT_MAX_ge_2097151 bits Hbits) as Hmax.
  split.
  - apply (verify_total bits compose fuel H16 Hfuel). lia.
  - destruct (main_total bits compose fuel H16 Hfuel ltac:(lia))
      as (status & out & E).
    exists status, out. split; [exact E |].
    exact (proj1 (main_sound bits compose fuel H16 status out E)).
Qed.

(** On an [int] of 16 bits the counters can leave its range: a compositor
    that returns 256 everywhere fails property 3 at each of its 1048576
    points, and the count stops short of them. *)
Example property_3_overflows_16_bits :
  Harness.property_3 16 (fun _ _ _ => 256) 257 0 = Harness.Overflow.
Proof.
  vm_compute. reflexivity.
Qed.

(** ** The further properties at concrete inputs *)

Lemma sample_118 : is_sample 118.
Proof. unfold is_sample. lia. Defined.

Lemma sample_73 : is_sample 73.
Proof. unfold is_sample. lia. Defined.

Lemma sample_0 : is_sample 0.
Proof. unfold is_sample. lia. Defined.

Lemma fuel_257 : (256 < 257)%nat.
Proof. lia. Defined.

Lemma srgb_compose_premultiplied_witness :
  (16 <= 32 /\ is_sample 100 /\ is_sample 118 /\ is_sample 73 /\ 100 <= 118) /\
  srgb_compose 32 100 118 73 = 100 + ((255 - 118) * 73 + 127) / 255.
Proof.
  split.
  - repeat split; unfold is_sample; lia.
  - apply (srgb_compose_premultiplied 32 width_32 100 118 73
             sample_100 sample_118 sample_73).
    lia.
Defined.

Lemma srgb_compose_opaque_is_blend_witness :
  (16 <= 32 /\ is_sample 100 /\ is_sample 200 /\ 1 <= 255 <= 255) /\
  srgb_compose 32 100 255 200 =
  Z.min 255 (100 + ((255 - 255) * 200 + 127) / 255).
Proof.
  split.
  - repeat split; unfold is_sample; lia.
  - apply (srgb_compose_opaque_is_blend 32 width_32 100 255 200
             sample_100 sample_200).
    lia.
Defined.

Lemma srgb_compose_transparent_is_not_blend_witness :
  (16 <= 32 /\ is_sample 100 /\ is_sample 200) /\
  srgb_blend 32 100 0 200 = 100 + 200 /\
  (srgb_compose 32 100 0 200 =
     (if srgb_blend 32 100 0 200 >? 255 then 255
      else srgb_blend 32 100 0 200)
   <-> 100 = 0 \/ 200 = 255).
Proof.
  split.
  - repeat split; unfold is_sample; lia.
  - exact (srgb_compose_transparent_is_not_blend 32 width_32 100 200
             sample_100 sample_200).
Defined.

Lemma srgb_compose_foreground_nonexpansive_witness :
  (16 <= 32 /\ is_sample 100 /\ is_sample 200 /\ is_sample 50 /\
   is_sample 73 /\ 100 <= 200) /\
  0 <= srgb_compose 32 200 50 73 - srgb_compose 32 100 50 73 <= 200 - 100.
Proof.
  split.
  - repeat split; unfold is_sample; lia.
  - apply (srgb_compose_foreground_nonexpansive 32 width_32 100 200 50 73
             sample_100 sample_200 sample_50 sample_73).
    lia.
Defined.

Lemma srgb_compose_background_nonexpansive_witness :
  (16 <= 32 /\ is_sample 100 /\ is_sample 0 /\ is_sample 73 /\
   is_sample 200 /\ 73 <= 200) /\
  0 <= srgb_compose 32 100 0 200 - srgb_compose 32 100 0 73 <= 200 - 73.
Proof.
  split.
  - repeat split; unfold is_sample; lia.
  - apply (srgb_compose_background_nonexpansive 32 width_32 100 0 73 200
             sample_100 sample_0 sample_73 sample_200).
    lia.
Defined.

Lemma srgb_compose_alpha_antitone_witness :
  (16 <= 32 /\ is_sample 100 /\ is_sample 200 /\ 1 <= 50 /\ 50 <= 118 /\
   118 <= 255) /\
  srgb_compose 32 100 118 200 <= srgb_compose 32 100 50 200.
Proof.
  split.
  - repeat split; unfold is_sample; lia.
  - apply (srgb_compose_alpha_antitone 32 width_32 100 50 118 200
             sample_100 sample_200); lia.
Defined.

Lemma srgb_compose_between_witness :
  (16 <= 32 /\ is_sample 100 /\ is_sample 118 /\ is_sample 73) /\
  Z.min 100 73 <= srgb_compose 32 100 118 73 <= Z.min 255 (100 + 73).
Proof.
  split.
  - repeat split; unfold is_sample; lia.
  - exact (srgb_compose_between 32 width_32 100 118 73
             sample_100 sample_118 sample_73).
Defined.

Lemma srgb_compose_on_black_witness :
  (16 <= 32 /\ is_sample 100 /\ 1 <= 50 <= 255) /\
  srgb_compose 32 100 50 0 = 100.
Proof.
  split.
  - repeat split; unfold is_sample; lia.
  - apply (srgb_compose_on_black 32 width_32 100 50 sample_100). lia.
Defined.

Lemma srgb_compose_rounds_to_nearest_witness :
  (16 <= 32 /\ is_sample 100 /\ is_sample 73 /\ 1 <= 118 <= 255 /\
   srgb_compose 32 100 118 73 < 255) /\
  - 127 <= 255 * (srgb_compose 32 100 118 73 - 100) - (255 - 118) * 73 <= 127.
Proof.
  split.
  - repeat split; unfold is_sample; try lia; reflexivity.
  - apply (srgb_compose_rounds_to_nearest 32 width_32 100 118 73
             sample_100 sample_73); [lia | reflexivity].
Defined.

Lemma srgb_compose_blend_branch_range_witness :
  (0 <= 32 /\ 300 <> 0 /\ 300 <> 255) /\
  0 <= srgb_compose 32 1000 300 70000 <= 255.
Proof.
  split.
  - repeat split; lia.
  - apply (srgb_compose_blend_branch_range 32 1000 300 70000); lia.
Defined.

Lemma srgb_compose_width_independent_witness :
  (16 <= 16 /\ 16 <= 32 /\ is_sample 100 /\ is_sample 118 /\ is_sample 73) /\
  srgb_compose 16 100 118 73 = srgb_compose 32 100 118 73.
Proof.
  split.
  - repeat split; unfold is_sample; lia.
  - apply (srgb_compose_width_independent 16 32 100 118 73);
      unfold is_sample; lia.
Defined.

Lemma run_tests_counts_failures_witness :
  16 <= 32 /\
  exists out,
    Harness.run_tests 32 (fun f _ _ => f) =
    Harness.Done
      (Z.of_nat (List.length (filter (vector_fails (fun f _ _ => f)) tests)))
      out /\
    (List.length (filter (vector_fails (fun f _ _ => f)) tests) <= 24)%nat /\
    (List.length (filter (vector_fails (fun f _ _ => f)) tests) = 0%nat <->
     vectors_pass (fun f _ _ => f)).
Proof.
  split.
  - lia.
  - exact (run_tests_counts_failures 32 (fun f _ _ => f) width_32).
Defined.

Lemma verify_formula_properties_zero_iff_witness :
  (16 <= 32 /\ (256 < 257)%nat) /\
  (holds_on_grids (srgb_compose 32) ->
   Harness.verify_formula_properties 32 (srgb_compose 32) 257 =
   Harness.Done 0 verify_transcript) /\
  (forall n out,
      Harness.verify_formula_properties 32 (srgb_compose 32) 257 =
      Harness.Done n out ->
      0 <= n /\ (n = 0 -> holds_on_grids (srgb_compose 32))).
Proof.
  split.
  - split; lia.
  - exact (verify_formula_properties_zero_iff 32 (srgb_compose 32) 257
             width_32 fuel_257).
Defined.

Lemma main_exit_status_witness :
  (16 <= 32 /\ (256 < 257)%nat) /\
  (vectors_pass (srgb_compose 32) -> holds_on_grids (srgb_compose 32) ->
   Harness.main 32 (srgb_compose 32) 257 = Harness.Done 0 main_transcript) /\
  (forall status out,
      Harness.main 32 (srgb_compose 32) 257 = Harness.Done status out ->
      (status = 0 \/ status = 1) /\
      (status = 0 ->
       vectors_pass (srgb_compose 32) /\ holds_on_grids (srgb_compose 32))).
Proof.
  split.
  - split; lia.
  - exact (main_exit_status 32 (srgb_compose 32) 257 width_32 fuel_257).
Defined.

Lemma program_passes_witness :
  (16 <= 32 /\ (256 < 257)%nat) /\
  Harness.run_tests 32 (srgb_compose 32) =
    Harness.Done (run_tests 32) run_tests_transcript /\
  verify_formula_properties 32 257 = Harness.Done 0 verify_transcript /\
  main 32 257 = Harness.Done 0 main_transcript.
Proof.
  split.
  - split; lia.
  - exact (program_passes 32 width_32 257 fuel_257).
Defined.

Lemma pass_line_after_earlier_failure_witness :
  (16 <= 32 /\ (256 < 257)%nat /\ 1 <> 0 /\
   opacity_on_grid (srgb_compose 32) /\ range_on_grid (srgb_compose 32)) /\
  Harness.property_2 32 (srgb_compose 32) 257 1 =
    Harness.Done 1
      [Harness.format "Property 2: alpha=255 => result = foreground\n" []] /\
  Harness.property_3 32 (srgb_compose 32) 257 1 =
    Harness.Done 1
      [Harness.format "Property 3: result always in [0, 255]\n" [];
       Harness.format "  PASS\n" []].
Proof.
  destruct (holds_on_grids_srgb_compose 32 width_32) as (_ & H2 & H3 & _).
  split.
  - repeat split; try lia; assumption.
  - apply (pass_line_after_earlier_failure 32 (srgb_compose 32) 257 1);
      try lia; assumption.
Defined.

Lemma main_total_on_22_bits_witness :
  (22 <= 32 /\ (256 < 257)%nat) /\
  (exists n out,
      Harness.verify_formula_properties 32 (fun _ _ _ => 256) 257 =
      Harness.Done n out /\ 0 <= n <= 1056298) /\
  (exists status out,
      Harness.main 32 (fun _ _ _ => 256) 257 = Harness.Done status out /\
      (status = 0 \/ status = 1)).
Proof.
  split.
  - split; lia.
  - apply (main_total_on_22_bits 32 (fun _ _ _ => 256) 257); lia.
Defined.
